(** * SecurePdfViewer: a shallow embedding of the viewer component

    The development models [src/lib/secure-pdf-viewer/index.tsx] (the
    [SecurePdfViewer] component with its hooks, handlers and render
    function), [components/PageContent] and [components/ErrorMessage],
    together with the part of the browser the component talks to: the
    timer queue ([setTimeout]/[clearTimeout]), the listener list of
    [document] and the console.

    React state and refs become fields of a record, every handler and effect
    body becomes a function on that record, and the asynchronous sources
    (timers, intersection batches, resize batches, load results, renders with
    new props) become the events of a step function.  JavaScript numbers that
    are only compared, minimised and copied (visibility ratios, widths) are
    rationals; page numbers, page counts, handles and milliseconds are
    naturals. *)

From Stdlib Require Import QArith Qminmax.
From stdpp Require Import base list strings option.

Open Scope string_scope.

(** ** The document's listener list *)

Module Dom.

(** The fields of an event the handlers of this component read. *)
Record DomEvent := { evType : string; ctrlKey : bool; key : string }.

(** A callback is a closure: [cbId] is its identity (what [===] and the
    listener list compare), [cbRun] tells whether running it on an event
    calls [preventDefault]. *)
Record Callback := { cbId : nat; cbRun : DomEvent → bool }.

Record Listener :=
  { lType : string; lCallback : Callback; lCapture : bool }.

(** Two registrations are the same when type, callback and capture flag
    agree. *)
Definition sameListener (a b : Listener) : bool :=
  String.eqb (lType a) (lType b)
  && Nat.eqb (cbId (lCallback a)) (cbId (lCallback b))
  && Bool.eqb (lCapture a) (lCapture b).

(** [addEventListener]: appended unless the same registration is present. *)
Definition addEventListener (ty : string) (cb : Callback) (cap : bool)
    (ls : list Listener) : list Listener :=
  let l := {| lType := ty; lCallback := cb; lCapture := cap |} in
  if existsb (sameListener l) ls then ls else ls ++ [l].

(** [removeEventListener]: the matching registration, if any, is dropped. *)
Fixpoint removeFirst (l : Listener) (ls : list Listener) : list Listener :=
  match ls with
  | [] => []
  | x :: rest => if sameListener l x then rest else x :: removeFirst l rest
  end.

Definition removeEventListener (ty : string) (cb : Callback) (cap : bool)
    (ls : list Listener) : list Listener :=
  removeFirst {| lType := ty; lCallback := cb; lCapture := cap |} ls.

(** Dispatching an event at the document: its default action is cancelled
    when a listener registered for its type calls [preventDefault]. *)
Definition defaultPrevented (ls : list Listener) (ev : DomEvent) : bool :=
  existsb (λ l, String.eqb (lType l) (evType ev) && cbRun (lCallback l) ev) ls.

End Dom.

(** ** The host: clock, timers, document, console *)

Module Host.

(** A pending [setTimeout(() => setCurrentPage(page), delay)]. *)
Record Timer := { timerId : nat; deadline : nat; timerPage : nat }.

Record t := {
  now : nat;
  timers : list Timer;            (* pending timers, oldest first *)
  nextTimer : nat;
  listeners : list Dom.Listener;  (* listeners of [document] *)
  nextClosure : nat;
  console : list string
}.

Definition setTimers (x : list Timer) (h : t) : t :=
  {| now := now h; timers := x; nextTimer := nextTimer h;
     listeners := listeners h; nextClosure := nextClosure h;
     console := console h |}.

Definition setListeners (x : list Dom.Listener) (h : t) : t :=
  {| now := now h; timers := timers h; nextTimer := nextTimer h;
     listeners := x; nextClosure := nextClosure h; console := console h |}.

Definition setNow (x : nat) (h : t) : t :=
  {| now := x; timers := timers h; nextTimer := nextTimer h;
     listeners := listeners h; nextClosure := nextClosure h;
     console := console h |}.

(** [setTimeout]: a fresh handle, the timer queued behind the others. *)
Definition setTimeout (page delay : nat) (h : t) : nat * t :=
  (nextTimer h,
   {| now := now h;
      timers := timers h ++ [ {| timerId := nextTimer h;
                                 deadline := now h + delay;
                                 timerPage := page |} ];
      nextTimer := S (nextTimer h);
      listeners := listeners h; nextClosure := nextClosure h;
      console := console h |}).

(** [clearTimeout]: nothing happens for a handle that is not pending. *)
Definition clearTimeout (id : nat) (h : t) : t :=
  setTimers (filter (λ tm, timerId tm ≠ id) (timers h)) h.

(** Two closures are allocated by one run of the protection effect. *)
Definition allocClosures (h : t) : nat * t :=
  (nextClosure h,
   {| now := now h; timers := timers h; nextTimer := nextTimer h;
      listeners := listeners h; nextClosure := S (S (nextClosure h));
      console := console h |}).

Definition consoleError (msg : string) (h : t) : t :=
  {| now := now h; timers := timers h; nextTimer := nextTimer h;
     listeners := listeners h; nextClosure := nextClosure h;
     console := console h ++ [msg] |}.

(** What the browser guarantees of a host the component is mounted in:
    timer handles are positive, no [setCurrentPage] timer is pending yet
    (the queue holds this component's timers only), and closures created
    later are not among the listeners already registered. *)
Definition ok (h : t) : Prop :=
  0 < nextTimer h
  ∧ timers h = []
  ∧ Forall (λ l, Dom.cbId (Dom.lCallback l) < nextClosure h) (listeners h).

End Host.

(** ** Props, with the defaults of the component's parameter list *)

Module Props.

Record CustomStyles := {
  backgroundColor : option string;
  headerBgColor : option string;
  headerBorderColor : option string;
  textColor : option string;
  accentColor : option string;
  pageBackgroundColor : option string
}.

(** [SecurePdfViewerProps]: only [fileUrl] is required. *)
Record t := {
  fileUrl : string;
  maxWidth : option Q;
  watermarkText : option string;
  headerTitle : option string;
  poweredByText : option string;
  disableSecurity : option bool;
  customStyles : option CustomStyles
}.

Definition setFileUrl (url : string) (p : t) : t :=
  {| fileUrl := url; maxWidth := maxWidth p;
     watermarkText := watermarkText p; headerTitle := headerTitle p;
     poweredByText := poweredByText p;
     disableSecurity := disableSecurity p;
     customStyles := customStyles p |}.

Definition setDisableSecurity (b : option bool) (p : t) : t :=
  {| fileUrl := fileUrl p; maxWidth := maxWidth p;
     watermarkText := watermarkText p; headerTitle := headerTitle p;
     poweredByText := poweredByText p;
     disableSecurity := b;
     customStyles := customStyles p |}.

End Props.

Definition fileUrl (p : Props.t) : string := Props.fileUrl p.
Definition maxWidth (p : Props.t) : Q := default 900%Q (Props.maxWidth p).
Definition watermarkText (p : Props.t) : string :=
  default "KIITConnect" (Props.watermarkText p).
Definition headerTitle (p : Props.t) : string :=
  default "KIITConnect PDF Viewer" (Props.headerTitle p).
Definition poweredByText (p : Props.t) : string :=
  default "Powered by KIITConnect © 2024" (Props.poweredByText p).
Definition disableSecurity (p : Props.t) : bool :=
  default false (Props.disableSecurity p).
Definition customStyles (p : Props.t) : Props.CustomStyles :=
  default {| Props.backgroundColor := None; Props.headerBgColor := None;
             Props.headerBorderColor := None; Props.textColor := None;
             Props.accentColor := None; Props.pageBackgroundColor := None |}
          (Props.customStyles p).

(** ** JavaScript truthiness, for the values the component tests *)

Definition truthyNat (n : nat) : bool := negb (Nat.eqb n 0).
Definition truthyString (s : string) : bool := negb (String.eqb s "").
Definition truthyQ (q : Q) : bool := negb (Qeq_bool q 0).

(** [a || d] on an optional string: [undefined] and the empty string give
    [d]. *)
Definition orElse (a : option string) (d : string) : string :=
  match a with
  | Some s => if truthyString s then s else d
  | None => d
  end.

(** [a > b] on numbers. *)
Definition Qgtb (a b : Q) : bool := negb (Qle_bool a b).

(** ** Component state: the [useState] cells and the [useRef] cells *)

Record State := {
  props : Props.t;
  (* useState *)
  numPages : nat;
  containerWidth : option Q;
  isLoading : bool;
  error : option string;
  currentPage : nat;
  (* useRef *)
  pdfDocumentRef : option nat;
  pageRefs : list (option nat);
  loadedUrlRef : option string;
  lastPageRef : nat;
  handlePageVisibleTimeoutRef : option nat;
  (* the cleanup React keeps for the protection effect: [Some k] when the
     effect installed its handlers, whose closures are [k] and [S k] *)
  protectionCleanup : option nat
}.

(** The component in its host.  [commits] is the trace of the
    [setCurrentPage] calls made by expiring timers, as (time, page). *)
Record World := {
  viewer : State;
  host : Host.t;
  commits : list (nat * nat)
}.

Section Setters.
Variable v : State.

Definition setProps (x : Props.t) : State :=
  {| props := x; numPages := numPages v;
     containerWidth := containerWidth v; isLoading := isLoading v;
     error := error v; currentPage := currentPage v;
     pdfDocumentRef := pdfDocumentRef v; pageRefs := pageRefs v;
     loadedUrlRef := loadedUrlRef v; lastPageRef := lastPageRef v;
     handlePageVisibleTimeoutRef := handlePageVisibleTimeoutRef v;
     protectionCleanup := protectionCleanup v |}.

Definition setContainerWidth (x : Q) : State :=
  {| props := props v; numPages := numPages v;
     containerWidth := Some x; isLoading := isLoading v;
     error := error v; currentPage := currentPage v;
     pdfDocumentRef := pdfDocumentRef v; pageRefs := pageRefs v;
     loadedUrlRef := loadedUrlRef v; lastPageRef := lastPageRef v;
     handlePageVisibleTimeoutRef := handlePageVisibleTimeoutRef v;
     protectionCleanup := protectionCleanup v |}.

Definition setCurrentPage (x : nat) : State :=
  {| props := props v; numPages := numPages v;
     containerWidth := containerWidth v; isLoading := isLoading v;
     error := error v; currentPage := x;
     pdfDocumentRef := pdfDocumentRef v; pageRefs := pageRefs v;
     loadedUrlRef := loadedUrlRef v; lastPageRef := lastPageRef v;
     handlePageVisibleTimeoutRef := handlePageVisibleTimeoutRef v;
     protectionCleanup := protectionCleanup v |}.

Definition setPageRefs (x : list (option nat)) : State :=
  {| props := props v; numPages := numPages v;
     containerWidth := containerWidth v; isLoading := isLoading v;
     error := error v; currentPage := currentPage v;
     pdfDocumentRef := pdfDocumentRef v; pageRefs := x;
     loadedUrlRef := loadedUrlRef v; lastPageRef := lastPageRef v;
     handlePageVisibleTimeoutRef := handlePageVisibleTimeoutRef v;
     protectionCleanup := protectionCleanup v |}.

Definition setProtectionCleanup (x : option nat) : State :=
  {| props := props v; numPages := numPages v;
     containerWidth := containerWidth v; isLoading := isLoading v;
     error := error v; currentPage := currentPage v;
     pdfDocumentRef := pdfDocumentRef v; pageRefs := pageRefs v;
     loadedUrlRef := loadedUrlRef v; lastPageRef := lastPageRef v;
     handlePageVisibleTimeoutRef := handlePageVisibleTimeoutRef v;
     protectionCleanup := x |}.
End Setters.

Definition withViewer (f : State → State) (w : World) : World :=
  {| viewer := f (viewer w); host := host w; commits := commits w |}.

Definition withHost (f : Host.t → Host.t) (w : World) : World :=
  {| viewer := viewer w; host := f (host w); commits := commits w |}.

(** ** Page-visibility debounce: [handlePageVisible] *)

Definition clearPendingCommit (w : World) : Host.t :=
  match handlePageVisibleTimeoutRef (viewer w) with
  | Some id => if truthyNat id then Host.clearTimeout id (host w) else host w
  | None => host w
  end.

Definition handlePageVisible (page : nat) (w : World) : World :=
  let v := viewer w in
  if Nat.eqb (lastPageRef v) page then w
  else
    let h1 := clearPendingCommit w in
    let '(id, h2) := Host.setTimeout page 300 h1 in
    {| viewer :=
         {| props := props v; numPages := numPages v;
            containerWidth := containerWidth v; isLoading := isLoading v;
            error := error v; currentPage := currentPage v;
            pdfDocumentRef := pdfDocumentRef v; pageRefs := pageRefs v;
            loadedUrlRef := loadedUrlRef v;
            lastPageRef := page;
            handlePageVisibleTimeoutRef := Some id;
            protectionCleanup := protectionCleanup v |};
       host := h2;
       commits := commits w |}.

(** ** The intersection observer's callback *)

Record Entry := {
  isIntersecting : bool;
  intersectionRatio : Q;
  target : nat
}.

(** [pageRefs.current.findIndex(ref => ref === entry.target)] *)
Definition findIndex (refs : list (option nat)) (tg : nat) : option nat :=
  fst <$> list_find (λ r, r = Some tg) refs.

(** One turn of the [entries.forEach] loop over the two locals. *)
Definition scanEntry (refs : list (option nat))
    (acc : Q * option nat) (entry : Entry) : Q * option nat :=
  let '(maxVisibility, visiblePage) := acc in
  if isIntersecting entry && Qgtb (intersectionRatio entry) maxVisibility
  then (intersectionRatio entry,
        match findIndex refs (target entry) with
        | Some pageIndex => Some (pageIndex + 1)
        | None => visiblePage
        end)
  else acc.

Definition mostVisible (refs : list (option nat)) (entries : list Entry)
    : Q * option nat :=
  foldl (scanEntry refs) (0%Q, None) entries.

Definition observerCallback (entries : list Entry) (w : World) : World :=
  let '(maxVisibility, visiblePage) :=
    mostVisible (pageRefs (viewer w)) entries in
  match visiblePage with
  | Some page =>
      if truthyNat page && Qgtb maxVisibility 0.3%Q
      then handlePageVisible page w else w
  | None => w
  end.

(** The observer exists only while [numPages] is not zero (the effect
    returns early otherwise, and it is re-run when [numPages] changes). *)
Definition onIntersect (entries : list Entry) (w : World) : World :=
  if truthyNat (numPages (viewer w)) then observerCallback entries w else w.

(** ** Container resizing: [onResize] takes the first entry's width *)

Definition onResize (entries : list Q) (w : World) : World :=
  match entries with
  | width :: _ => withViewer (λ v, setContainerWidth v width) w
  | [] => w
  end.

(** ** Document protection effect *)

Definition handleKeyDown (e : Dom.DomEvent) : bool :=
  (Dom.ctrlKey e
   && (String.eqb (Dom.key e) "p" || String.eqb (Dom.key e) "s"
       || String.eqb (Dom.key e) "c"))
  || String.eqb (Dom.key e) "PrintScreen"
  || String.eqb (Dom.key e) "F12".

Definition preventDefaultHandlerOf (k : nat) : Dom.Callback :=
  {| Dom.cbId := k; Dom.cbRun := λ _, true |}.

Definition handleKeyDownOf (k : nat) : Dom.Callback :=
  {| Dom.cbId := S k; Dom.cbRun := handleKeyDown |}.

Definition installProtection (k : nat) (ls : list Dom.Listener)
    : list Dom.Listener :=
  let preventDefaultHandler := preventDefaultHandlerOf k in
  let ls := Dom.addEventListener "contextmenu" preventDefaultHandler true ls in
  let ls := Dom.addEventListener "keydown" (handleKeyDownOf k) true ls in
  let ls := Dom.addEventListener "dragstart" preventDefaultHandler true ls in
  let ls := Dom.addEventListener "drop" preventDefaultHandler true ls in
  let ls := Dom.addEventListener "copy" preventDefaultHandler true ls in
  let ls := Dom.addEventListener "cut" preventDefaultHandler true ls in
  let ls := Dom.addEventListener "paste" preventDefaultHandler true ls in
  let ls := Dom.addEventListener "selectstart" preventDefaultHandler true ls in
  Dom.addEventListener "mousedown" preventDefaultHandler true ls.

Definition removeProtection (k : nat) (ls : list Dom.Listener)
    : list Dom.Listener :=
  let preventDefaultHandler := preventDefaultHandlerOf k in
  let ls := Dom.removeEventListener "contextmenu" preventDefaultHandler true ls in
  let ls := Dom.removeEventListener "keydown" (handleKeyDownOf k) true ls in
  let ls := Dom.removeEventListener "dragstart" preventDefaultHandler true ls in
  let ls := Dom.removeEventListener "drop" preventDefaultHandler true ls in
  let ls := Dom.removeEventListener "copy" preventDefaultHandler true ls in
  let ls := Dom.removeEventListener "cut" preventDefaultHandler true ls in
  let ls := Dom.removeEventListener "paste" preventDefaultHandler true ls in
  let ls := Dom.removeEventListener "selectstart" preventDefaultHandler true ls in
  Dom.removeEventListener "mousedown" preventDefaultHandler true ls.

(** The effect body: nothing at all when [disableSecurity] is set, otherwise
    the nine registrations, and a cleanup for React to keep. *)
Definition protectionEffect (w : World) : World :=
  if disableSecurity (props (viewer w))
  then withViewer (λ v, setProtectionCleanup v None) w
  else
    let '(k, h) := Host.allocClosures (host w) in
    {| viewer := setProtectionCleanup (viewer w) (Some k);
       host := Host.setListeners (installProtection k (Host.listeners h)) h;
       commits := commits w |}.

(** The cleanup the effect returned: the nine removals, then the pending
    commit timer. *)
Definition protectionCleanupBody (k : nat) (w : World) : Host.t :=
  let h := Host.setListeners
             (removeProtection k (Host.listeners (host w))) (host w) in
  clearPendingCommit
    {| viewer := viewer w; host := h; commits := commits w |}.

Definition runProtectionCleanup (w : World) : World :=
  match protectionCleanup (viewer w) with
  | Some k =>
      {| viewer := setProtectionCleanup (viewer w) None;
         host := protectionCleanupBody k w;
         commits := commits w |}
  | None => w
  end.

(** ** Load lifecycle *)

(** The effect on [fileUrl]: "Reset loading state when fileUrl changes". *)
Definition fileUrlEffect (w : World) : World :=
  let v := viewer w in
  if bool_decide (loadedUrlRef v ≠ Some (fileUrl (props v)))
  then
    withViewer (λ v,
      {| props := props v; numPages := numPages v;
         containerWidth := containerWidth v;
         isLoading := true;
         error := None;
         currentPage := currentPage v;
         pdfDocumentRef := pdfDocumentRef v; pageRefs := pageRefs v;
         loadedUrlRef := Some (fileUrl (props v));
         lastPageRef := lastPageRef v;
         handlePageVisibleTimeoutRef := handlePageVisibleTimeoutRef v;
         protectionCleanup := protectionCleanup v |}) w
  else w.

(** [onDocumentLoadSuccess({ numPages: nextNumPages, _pdfInfo })] *)
Definition onDocumentLoadSuccess (nextNumPages document : nat) (w : World)
    : World :=
  withViewer (λ v,
    {| props := props v;
       numPages := nextNumPages;
       containerWidth := containerWidth v;
       isLoading := false;
       error := None;
       currentPage := currentPage v;
       pdfDocumentRef := Some document;
       pageRefs := replicate nextNumPages None;
       loadedUrlRef := loadedUrlRef v; lastPageRef := lastPageRef v;
       handlePageVisibleTimeoutRef := handlePageVisibleTimeoutRef v;
       protectionCleanup := protectionCleanup v |}) w.

Definition loadErrorMessage : string :=
  "Failed to load the PDF. Please check if the file exists and try again.".

(** [onDocumentLoadError(error)]: the raw error only reaches the console. *)
Definition onDocumentLoadError (raw : string) (w : World) : World :=
  {| viewer :=
       (let v := viewer w in
        {| props := props v; numPages := numPages v;
           containerWidth := containerWidth v;
           isLoading := false;
           error := Some loadErrorMessage;
           currentPage := currentPage v;
           pdfDocumentRef := pdfDocumentRef v; pageRefs := pageRefs v;
           loadedUrlRef := loadedUrlRef v; lastPageRef := lastPageRef v;
           handlePageVisibleTimeoutRef := handlePageVisibleTimeoutRef v;
           protectionCleanup := protectionCleanup v |});
     host := Host.consoleError ("PDF Load Error: " ++ raw) (host w);
     commits := commits w |}.

(** The ref callback of a page slot: [pageRefs.current[index] = el].  A write
    past the end of a JavaScript array extends it with holes. *)
Definition arraySet (index : nat) (el : option nat) (a : list (option nat))
    : list (option nat) :=
  if Nat.ltb index (length a) then <[index := el]> a
  else a ++ replicate (index - length a) None ++ [el].

Definition attachRef (index : nat) (el : option nat) (w : World) : World :=
  withViewer (λ v, setPageRefs v (arraySet index el (pageRefs v))) w.

(** ** Mounting, rendering again with new props, unmounting *)

Definition initialState (p : Props.t) : State :=
  {| props := p; numPages := 0; containerWidth := None; isLoading := true;
     error := None; currentPage := 1; pdfDocumentRef := None; pageRefs := [];
     loadedUrlRef := None; lastPageRef := 1;
     handlePageVisibleTimeoutRef := None; protectionCleanup := None |}.

(** First render, then the effects in the order they are declared: the
    observer effect returns at once ([numPages] is 0), then the protection
    effect, then the effect on [fileUrl]. *)
Definition mount (p : Props.t) (h : Host.t) : World :=
  fileUrlEffect
    (protectionEffect {| viewer := initialState p; host := h; commits := [] |}).

(** A render with new props re-runs the effects whose dependencies changed:
    [[disableSecurity]] (cleanup first) and [[fileUrl]]. *)
Definition rerender (p : Props.t) (w : World) : World :=
  let old := props (viewer w) in
  let w := withViewer (λ v, setProps v p) w in
  let w := if bool_decide (disableSecurity old = disableSecurity p) then w
           else protectionEffect (runProtectionCleanup w) in
  if bool_decide (fileUrl old = fileUrl p) then w else fileUrlEffect w.

(** [load(url)]: the host renders the component with another [fileUrl]. *)
Definition load (url : string) (w : World) : World :=
  rerender (Props.setFileUrl url (props (viewer w))) w.

(** Unmounting runs the cleanups React holds; the component is gone and the
    host remains. *)
Definition unmount (w : World) : Host.t := host (runProtectionCleanup w).

(** ** Time *)

(** An expiring timer runs its callback, [setCurrentPage(page)]. *)
Definition fire (w : World) (tm : Host.Timer) : World :=
  {| viewer := setCurrentPage (viewer w) (Host.timerPage tm);
     host := host w;
     commits := commits w ++ [(Host.deadline tm, Host.timerPage tm)] |}.

(** Timers that expire within [d], and those that stay. *)
Definition dueTimers (d : nat) (w : World) : list Host.Timer :=
  filter (λ tm, (Host.deadline tm ≤ Host.now (host w) + d)%nat)
         (Host.timers (host w)).

Definition laterTimers (d : nat) (w : World) : list Host.Timer :=
  filter (λ tm, ¬ (Host.deadline tm ≤ Host.now (host w) + d)%nat)
         (Host.timers (host w)).

(** [d] time units pass: the clock moves, the due timers leave the queue and
    run, oldest first. *)
Definition elapse (d : nat) (w : World) : World :=
  foldl fire
    (withHost (λ h, Host.setNow (Host.now h + d)
                      (Host.setTimers (laterTimers d w) h)) w)
    (dueTimers d w).

(** ** Events and runs *)

Inductive Event :=
| Elapse (d : nat)
| Rerender (p : Props.t)
| LoadSuccess (nextNumPages document : nat)
| LoadError (raw : string)
| Resize (entries : list Q)
| AttachRef (index : nat) (el : option nat)
| Intersect (entries : list Entry).

Definition step (w : World) (e : Event) : World :=
  match e with
  | Elapse d => elapse d w
  | Rerender p => rerender p w
  | LoadSuccess n doc => onDocumentLoadSuccess n doc w
  | LoadError raw => onDocumentLoadError raw w
  | Resize entries => onResize entries w
  | AttachRef index el => attachRef index el w
  | Intersect entries => onIntersect entries w
  end.

Definition run (w : World) (evs : list Event) : World := foldl step w evs.

(** States the component can be in: mounted in a well-formed host, then any
    events. *)
Inductive reachable (p0 : Props.t) (h0 : Host.t) : World → Prop :=
| reach_mount : Host.ok h0 → reachable p0 h0 (mount p0 h0)
| reach_step w e : reachable p0 h0 w → reachable p0 h0 (step w e).

(** ** Render *)

Record PageView := { pageNumber : nat; width : Q; watermark : string }.

(** [PageContent]: the page at the computed width, under the watermark label
    and the transparent overlay. *)
Definition PageContent (pageNumber : nat) (containerWidth : option Q)
    (maxWidth : Q) : PageView :=
  {| pageNumber := pageNumber;
     width := match containerWidth with
              | Some cw => if truthyQ cw then Qmin cw maxWidth else maxWidth
              | None => maxWidth
              end;
     watermark := "KIITConnect" |}.

Inductive Body :=
| ErrorMessage (message : string)
| Document (pages : list PageView).

Record Styles := {
  sBackgroundColor : string; sHeaderBgColor : string;
  sHeaderBorderColor : string; sTextColor : string;
  sAccentColor : string; sPageBackgroundColor : string
}.

Definition styles (p : Props.t) : Styles :=
  let c := customStyles p in
  {| sBackgroundColor := orElse (Props.backgroundColor c) "#121212";
     sHeaderBgColor := orElse (Props.headerBgColor c) "#121212";
     sHeaderBorderColor := orElse (Props.headerBorderColor c) "#333";
     sTextColor := orElse (Props.textColor c) "#fff";
     sAccentColor := orElse (Props.accentColor c) "#3B82F6";
     sPageBackgroundColor := orElse (Props.pageBackgroundColor c) "transparent" |}.

Record View := {
  vStyles : Styles;
  vTitle : string;
  vPageOf : nat * nat;          (* "Page {currentPage} of {numPages}" *)
  vLoadingIndicator : bool;
  vBody : Body;
  vFooter : string
}.

Definition errorShown (v : State) : bool :=
  match error v with Some msg => truthyString msg | None => false end.

Definition pageSlots (v : State) : list PageView :=
  map (λ index, PageContent (index + 1) (containerWidth v) (maxWidth (props v)))
      (seq 0 (numPages v)).

Definition render (v : State) : View :=
  {| vStyles := styles (props v);
     vTitle := headerTitle (props v);
     vPageOf := (currentPage v, numPages v);
     vLoadingIndicator := isLoading v && negb (errorShown v);
     vBody := match error v with
              | Some msg =>
                  if truthyString msg then ErrorMessage msg
                  else Document (pageSlots v)
              | None => Document (pageSlots v)
              end;
     vFooter := poweredByText (props v) |}.

(** The page slots on screen. *)
Definition renderedPages (vw : View) : list PageView :=
  match vBody vw with
  | ErrorMessage _ => []
  | Document pages => pages
  end.

Open Scope list_scope.
Open Scope nat_scope.

(** ** The pending-commit invariant: at most one timer, the one the ref
    holds, for the page recorded last *)

Definition timersInv (w : World) : Prop :=
  0 < Host.nextTimer (host w) ∧
  (∀ tm, tm ∈ Host.timers (host w) → Host.timerId tm < Host.nextTimer (host w)) ∧
  match Host.timers (host w) with
  | [] => True
  | [tm] =>
      handlePageVisibleTimeoutRef (viewer w) = Some (Host.timerId tm) ∧
      0 < Host.timerId tm ∧
      Host.timerPage tm = lastPageRef (viewer w) ∧
      Host.now (host w) < Host.deadline tm
  | _ => False
  end.

(** ** What holds of every reachable state *)

Definition isSome {A} (o : option A) : bool :=
  match o with Some _ => true | None => false end.

(** The ref holds the URL of the props. *)
Definition urlInv (w : World) : Prop :=
  loadedUrlRef (viewer w) = Some (fileUrl (props (viewer w))).

(** React holds a cleanup exactly when the overlay is enabled. *)
Definition flagInv (w : World) : Prop :=
  isSome (protectionCleanup (viewer w))
  = negb (disableSecurity (props (viewer w))).

(** The document carries the listeners it had at mount time, followed by the
    nine of the current activation, if there is one. *)
Definition listenersInv (h0 : Host.t) (w : World) : Prop :=
  match protectionCleanup (viewer w) with
  | Some k =>
      Host.listeners (host w) = Host.listeners h0 ++ installProtection k []
      ∧ Host.nextClosure h0 ≤ k
  | None => Host.listeners (host w) = Host.listeners h0
  end
  ∧ Host.nextClosure h0 ≤ Host.nextClosure (host w).

Record Inv (h0 : Host.t) (w : World) : Prop := {
  inv_url : urlInv w;
  inv_flag : flagInv w;
  inv_listeners : listenersInv h0 w;
  inv_timers : timersInv w
}.


(** ** Sample inputs *)

Definition sampleProps (url : string) : Props.t :=
  {| Props.fileUrl := url; Props.maxWidth := None;
     Props.watermarkText := None; Props.headerTitle := None;
     Props.poweredByText := None; Props.disableSecurity := None;
     Props.customStyles := None |}.

(** A page that already listens for clicks. *)
Definition sampleHost : Host.t :=
  {| Host.now := 0; Host.timers := []; Host.nextTimer := 1;
     Host.listeners :=
       [ {| Dom.lType := "click";
            Dom.lCallback := {| Dom.cbId := 0; Dom.cbRun := λ _, false |};
            Dom.lCapture := false |} ];
     Host.nextClosure := 1; Host.console := [] |}.

Definition entryOf (tg : nat) (ratio : Q) : Entry :=
  {| isIntersecting := true; intersectionRatio := ratio; target := tg |}.

(** Three pages loaded and attached to the elements 10, 11, 12. *)
Definition threePages : list Event :=
  [ LoadSuccess 3 7; AttachRef 0 (Some 10); AttachRef 1 (Some 11);
    AttachRef 2 (Some 12) ].

Definition eventOfType (ty : string) : Dom.DomEvent :=
  {| Dom.evType := ty; Dom.ctrlKey := false; Dom.key := "" |}.

(** ** Candidates reported to the debouncer

    A report is a pair (gap, page): [page] reaches [handlePageVisible] [gap]
    time units after the previous report. *)

Definition report (w : World) (c : nat * nat) : World :=
  handlePageVisible (snd c) (elapse (fst c) w).

Definition reportAll (cs : list (nat * nat)) (w : World) : World :=
  foldl report w cs.

(** No page is reported twice in a row. *)
Fixpoint adjacentDistinct (l : list nat) : Prop :=
  match l with
  | a :: r => match r with b :: _ => a ≠ b | [] => True end ∧ adjacentDistinct r
  | [] => True
  end.

(** Every report differs from the page recorded just before it and arrives
    less than 300 after it. *)
Fixpoint freshChain (prev : nat) (cs : list (nat * nat)) : Prop :=
  match cs with
  | [] => True
  | c :: r => snd c ≠ prev ∧ fst c < 300 ∧ freshChain (snd c) r
  end.

(** The timer, if one is pending, has just been started. *)
Definition justStarted (w : World) : Prop :=
  ∀ tm, tm ∈ Host.timers (host w) → Host.deadline tm = Host.now (host w) + 300.

(** Mounted on the sample page, overlay enabled, and with it switched off. *)
Definition mounted : World := mount (sampleProps "a.pdf") sampleHost.

Definition unprotectedProps : Props.t :=
  Props.setDisableSecurity (Some true) (sampleProps "a.pdf").

Definition mountedUnprotected : World := mount unprotectedProps sampleHost.

(** Page 2 comes into view, half visible. *)
Definition scrollToTwo : list Event :=
  threePages ++ [Intersect [entryOf 11 0.5]].

(** Three pages fly by within one quiet window. *)
Definition fastScroll : list (nat * nat) := [(0, 2); (100, 3); (299, 4)].

(** ** Batches of the intersection observer *)

(** Every intersecting entry of the batch is on a surface held in
    [pageRefs]. *)
Definition registered (refs : list (option nat)) (entries : list Entry) : Prop :=
  ∀ e, e ∈ entries → isIntersecting e = true →
       is_Some (findIndex refs (target e)).

(** The batch reports [page] as intersecting with a ratio above 0.3. *)
Definition selects (w : World) (e : Event) (page : nat) : Prop :=
  match e with
  | Intersect entries =>
      ∃ en i, en ∈ entries ∧ isIntersecting en = true
              ∧ (0.3 < intersectionRatio en)%Q
              ∧ findIndex (pageRefs (viewer w)) (target en) = Some i
              ∧ page = i + 1
  | _ => False
  end.

Fixpoint selectedDuring (w : World) (evs : list Event) (page : nat) : Prop :=
  match evs with
  | [] => False
  | e :: r => selects w e page ∨ selectedDuring (step w e) r page
  end.

Fixpoint batchesRegistered (w : World) (evs : list Event) : Prop :=
  match evs with
  | [] => True
  | e :: r =>
      match e with
      | Intersect entries => registered (pageRefs (viewer w)) entries
      | _ => True
      end ∧ batchesRegistered (step w e) r
  end.

(** No batch of the run reports an intersecting ratio above 0.3. *)
Definition neverSignificant (evs : list Event) : Prop :=
  ∀ entries en, Intersect entries ∈ evs → en ∈ entries →
    isIntersecting en = true → (intersectionRatio en <= 0.3)%Q.

(** The pages the component holds: shown, recorded, or waiting in a timer. *)
Definition pagesOf (w : World) : list nat :=
  currentPage (viewer w) :: lastPageRef (viewer w)
  :: map Host.timerPage (Host.timers (host w)).

(** Pages 1 to 3 in one batch, pages 2 and 3 equally visible. *)
Definition tiedBatch : list Entry :=
  [entryOf 10 0.4; entryOf 11 0.7; entryOf 12 0.7].

(** The ratio most recently reported for a surface. *)
Definition batchesOf (evs : list Event) : list Entry :=
  flat_map (λ e, match e with Intersect entries => entries | _ => [] end) evs.

Definition latestRatio (tg : nat) (evs : list Event) : option Q :=
  foldl (λ acc en, if bool_decide (target en = tg)
                   then Some (intersectionRatio en) else acc)
        None (batchesOf evs).

(** Page 2 is selected at one half, then drops to a quarter while its commit
    is still pending. *)
Definition lingering : list Event :=
  threePages ++ [Intersect [entryOf 11 0.5]; Elapse 100;
                 Intersect [entryOf 11 0.25]].

(** Nothing is ever more than a quarter visible. *)
Definition barelyVisible : list Event :=
  threePages ++ [Intersect [entryOf 11 0.25]; Elapse 400;
                 Intersect [entryOf 12 0.2; entryOf 11 0.1]; Elapse 400].

(** Nothing pending, nothing committed, page 1 shown and recorded. *)
Definition atDefaultPage (w : World) : Prop :=
  currentPage (viewer w) = 1 ∧ lastPageRef (viewer w) = 1
  ∧ Host.timers (host w) = [] ∧ commits w = [].

(** ** The load lifecycle as the session sees it *)

Inductive Status := Loading | Ready | Failed.

Definition status (v : State) : Status :=
  if errorShown v then Failed else if isLoading v then Loading else Ready.

(** A result of the rendering engine, tagged with the URL whose load produced
    it.  The handlers are not given the tag. *)
Inductive Outcome :=
| Loaded (nextNumPages document : nat)
| Failure (raw : string).

Record Arrival := { origin : string; outcome : Outcome }.

Definition deliver (a : Arrival) (w : World) : World :=
  match outcome a with
  | Loaded n doc => onDocumentLoadSuccess n doc w
  | Failure raw => onDocumentLoadError raw w
  end.

(** Events after which the engine has nothing new to report for [url]: no
    other URL is set and no result comes in. *)
Definition keepsUrl (url : string) (e : Event) : Prop :=
  match e with
  | Rerender p => fileUrl p = url
  | LoadSuccess _ _ => False
  | _ => True
  end.

(** The viewer asked for a watermark of its own. *)
Definition confidentialProps : Props.t :=
  {| Props.fileUrl := "a.pdf"; Props.maxWidth := None;
     Props.watermarkText := Some "Confidential"; Props.headerTitle := None;
     Props.poweredByText := None; Props.disableSecurity := None;
     Props.customStyles := None |}.

(** ** Further definitions for the properties of the whole component *)

(** The event types whose every occurrence [preventDefaultHandler] cancels. *)
Definition protectedTypes : list string :=
  ["contextmenu"; "dragstart"; "drop"; "copy"; "cut"; "paste"; "selectstart";
   "mousedown"].

(** What the overlay cancels by itself. *)
Definition overlayCancels (ev : Dom.DomEvent) : bool :=
  existsb (λ ty, String.eqb ty (Dom.evType ev)) protectedTypes
  || (String.eqb "keydown" (Dom.evType ev) && handleKeyDown ev).

(** No pending timer is due later than 300 from now. *)
Definition deadlineInv (w : World) : Prop :=
  ∀ tm, tm ∈ Host.timers (host w) →
        Host.deadline tm ≤ Host.now (host w) + 300.

(** A render that leaves [disableSecurity] at [b]; any other event. *)
Definition keepsFlag (b : bool) (e : Event) : Prop :=
  match e with
  | Rerender p => disableSecurity p = b
  | _ => True
  end.

(** With no commit pending, the page shown is the page recorded. *)
Definition settled (w : World) : Prop :=
  Host.timers (host w) = [] → currentPage (viewer w) = lastPageRef (viewer w).

(** The raw errors of the failed loads of a run, in order. *)
Definition loadErrorsOf (evs : list Event) : list string :=
  flat_map (λ e, match e with LoadError raw => [raw] | _ => [] end) evs.

(** Error and loading flag as the two handlers and the effect leave them. *)
Definition loadStateInv (v : State) : Prop :=
  (error v = None ∨ error v = Some loadErrorMessage)
  ∧ (isLoading v = true → error v = None).

(** Ctrl+Shift+P arrives with the key "P". *)
Definition ctrlShiftP : Dom.DomEvent :=
  {| Dom.evType := "keydown"; Dom.ctrlKey := true; Dom.key := "P" |}.

Definition ctrlP : Dom.DomEvent :=
  {| Dom.evType := "keydown"; Dom.ctrlKey := true; Dom.key := "p" |}.

(** Props whose background override is the empty string, and whose text
    colour is overridden. *)
Definition overrideProps : Props.t :=
  {| Props.fileUrl := "a.pdf"; Props.maxWidth := None;
     Props.watermarkText := None; Props.headerTitle := None;
     Props.poweredByText := None; Props.disableSecurity := None;
     Props.customStyles :=
       Some {| Props.backgroundColor := Some ""; Props.headerBgColor := None;
               Props.headerBorderColor := None;
               Props.textColor := Some "#eee";
               Props.accentColor := None;
               Props.pageBackgroundColor := None |} |}.

(** Page 2 has been committed; then a one-page document is loaded in its
    place. *)
Definition shorterDocument : list Event :=
  scrollToTwo ++ [Elapse 300; Rerender (sampleProps "b.pdf"); LoadSuccess 1 8].

Definition notElapse (e : Event) : Prop :=
  match e with Elapse _ => False | _ => True end.

(** A sequence of [load] calls. *)
Definition loadAll (urls : list string) (w : World) : World :=
  foldl (λ w url, load url w) w urls.
(** * Lemmas *)

(** ** Listener list *)

Section ListenerLemmas.
Import Dom.

Lemma existsb_same_app l ls ms :
  existsb (sameListener l) ls = false →
  existsb (sameListener l) (ls ++ ms) = existsb (sameListener l) ms.
Proof. intros H. now rewrite existsb_app, H. Qed.

Lemma addEventListener_app ty cb cap ls ms :
  existsb (sameListener {| lType := ty; lCallback := cb; lCapture := cap |}) ls
    = false →
  addEventListener ty cb cap (ls ++ ms) = ls ++ addEventListener ty cb cap ms.
Proof.
  intros H. unfold addEventListener. rewrite existsb_same_app by exact H.
  destruct (existsb _ ms); [reflexivity | now rewrite app_assoc].
Qed.

Lemma removeFirst_app l ls ms :
  existsb (sameListener l) ls = false →
  removeFirst l (ls ++ ms) = ls ++ removeFirst l ms.
Proof.
  induction ls as [|x ls IH]; simpl; [reflexivity|].
  intros H. apply orb_false_iff in H as [Hx Hls].
  rewrite Hx, IH by exact Hls. reflexivity.
Qed.

Lemma fresh_not_registered k ls ty cb cap :
  Forall (λ l, cbId (lCallback l) < k) ls → k ≤ cbId cb →
  existsb (sameListener {| lType := ty; lCallback := cb; lCapture := cap |}) ls
    = false.
Proof.
  intros Hall Hk. induction Hall as [|x ls Hx _ IH]; simpl; [reflexivity|].
  rewrite IH, orb_false_r. unfold sameListener; simpl.
  replace (cbId cb =? cbId (lCallback x))%nat with false.
  - now rewrite andb_false_r.
  - symmetry. apply Nat.eqb_neq. lia.
Qed.
Lemma sameListener_refl l : sameListener l l = true.
Proof.
  unfold sameListener.
  now rewrite String.eqb_refl, Nat.eqb_refl, Bool.eqb_reflx.
Qed.

Lemma removeFirst_head l rest : removeFirst l (l :: rest) = rest.
Proof. simpl. now rewrite sameListener_refl. Qed.
End ListenerLemmas.

(** The nine registrations of one activation, in the order they are made. *)
Lemma installProtection_nil k :
  installProtection k [] =
    let pd := preventDefaultHandlerOf k in
    let mk ty cb := {| Dom.lType := ty; Dom.lCallback := cb; Dom.lCapture := true |} in
    [ mk "contextmenu" pd; mk "keydown" (handleKeyDownOf k); mk "dragstart" pd;
      mk "drop" pd; mk "copy" pd; mk "cut" pd; mk "paste" pd;
      mk "selectstart" pd; mk "mousedown" pd ].
Proof. reflexivity. Qed.

Lemma installProtection_fresh k ls :
  Forall (λ l, Dom.cbId (Dom.lCallback l) < k) ls →
  installProtection k ls = ls ++ installProtection k [].
Proof.
  intros Hall.
  assert (Hpd : ∀ ty cap, existsb (Dom.sameListener
            {| Dom.lType := ty; Dom.lCallback := preventDefaultHandlerOf k;
               Dom.lCapture := cap |}) ls = false).
  { intros. eapply fresh_not_registered; [exact Hall | simpl; lia]. }
  assert (Hkd : ∀ ty cap, existsb (Dom.sameListener
            {| Dom.lType := ty; Dom.lCallback := handleKeyDownOf k;
               Dom.lCapture := cap |}) ls = false).
  { intros. eapply fresh_not_registered; [exact Hall | simpl; lia]. }
  unfold installProtection; cbv zeta.
  rewrite <- (app_nil_r ls) at 1.
  rewrite !addEventListener_app by auto. reflexivity.
Qed.

Lemma removeProtection_own k : removeProtection k (installProtection k []) = [].
Proof.
  rewrite installProtection_nil.
  unfold removeProtection, Dom.removeEventListener; cbv zeta.
  rewrite !removeFirst_head. reflexivity.
Qed.

Lemma removeProtection_app k ls ms :
  Forall (λ l, Dom.cbId (Dom.lCallback l) < k) ls →
  removeProtection k (ls ++ ms) = ls ++ removeProtection k ms.
Proof.
  intros Hall.
  assert (Hpd : ∀ ty cap, existsb (Dom.sameListener
            {| Dom.lType := ty; Dom.lCallback := preventDefaultHandlerOf k;
               Dom.lCapture := cap |}) ls = false).
  { intros. eapply fresh_not_registered; [exact Hall | simpl; lia]. }
  assert (Hkd : ∀ ty cap, existsb (Dom.sameListener
            {| Dom.lType := ty; Dom.lCallback := handleKeyDownOf k;
               Dom.lCapture := cap |}) ls = false).
  { intros. eapply fresh_not_registered; [exact Hall | simpl; lia]. }
  unfold removeProtection, Dom.removeEventListener; cbv zeta.
  rewrite !removeFirst_app by auto. reflexivity.
Qed.

Lemma removeProtection_installed k ls :
  Forall (λ l, Dom.cbId (Dom.lCallback l) < k) ls →
  removeProtection k (ls ++ installProtection k []) = ls.
Proof.
  intros Hall. rewrite removeProtection_app by exact Hall.
  rewrite removeProtection_own. apply app_nil_r.
Qed.

(** ** Expiring timers *)

Lemma foldl_fire_host w l : host (foldl fire w l) = host w.
Proof. revert w; induction l as [|tm l IH]; intros w; simpl; [|rewrite IH]; reflexivity. Qed.

Lemma foldl_fire_commits w l :
  commits (foldl fire w l)
  = commits w ++ map (λ tm, (Host.deadline tm, Host.timerPage tm)) l.
Proof.
  revert w; induction l as [|tm l IH]; intros w; simpl.
  - now rewrite app_nil_r.
  - rewrite IH. simpl. now rewrite <- app_assoc.
Qed.

Lemma last_cons_default {A} (a : A) l d1 d2 :
  List.last (a :: l) d1 = List.last (a :: l) d2.
Proof.
  revert a; induction l as [|b l IH]; intros a; [reflexivity|].
  change (List.last (b :: l) d1 = List.last (b :: l) d2). apply IH.
Qed.

Lemma foldl_fire_viewer w l :
  viewer (foldl fire w l)
  = setCurrentPage (viewer w)
      (List.last (map Host.timerPage l) (currentPage (viewer w))).
Proof.
  revert w; induction l as [|tm l IH]; intros w.
  - simpl. now destruct (viewer w).
  - change (foldl fire w (tm :: l)) with (foldl fire (fire w tm) l).
    rewrite IH. cbn [fire viewer setCurrentPage currentPage].
    destruct l as [|tm' l]; [reflexivity|].
    cbn [map]. rewrite (last_cons_default _ _ (Host.timerPage tm) (currentPage (viewer w))).
    reflexivity.
Qed.

Lemma elapse_host d w :
  host (elapse d w)
  = Host.setNow (Host.now (host w) + d) (Host.setTimers (laterTimers d w) (host w)).
Proof. unfold elapse. now rewrite foldl_fire_host. Qed.

Lemma elapse_commits d w :
  commits (elapse d w)
  = commits w ++ map (λ tm, (Host.deadline tm, Host.timerPage tm)) (dueTimers d w).
Proof. unfold elapse. now rewrite foldl_fire_commits. Qed.

Lemma elapse_viewer d w :
  viewer (elapse d w)
  = setCurrentPage (viewer w)
      (List.last (map Host.timerPage (dueTimers d w)) (currentPage (viewer w))).
Proof. unfold elapse. now rewrite foldl_fire_viewer. Qed.

(** With nothing pending, time passing only moves the clock. *)
Lemma elapse_idle d w :
  Host.timers (host w) = [] →
  elapse d w = withHost (Host.setNow (Host.now (host w) + d)) w.
Proof.
  intros H. unfold elapse, dueTimers, laterTimers. rewrite H. simpl.
  destruct w as [v h c]; simpl in *. unfold withHost; simpl.
  destruct h; simpl in *. now subst.
Qed.

Lemma timersInv_idle w :
  0 < Host.nextTimer (host w) → Host.timers (host w) = [] → timersInv w.
Proof.
  intros Hn Ht. unfold timersInv. rewrite Ht. repeat split; [exact Hn|].
  intros tm Htm. inversion Htm.
Qed.

Lemma clearPendingCommit_timers w :
  timersInv w → Host.timers (clearPendingCommit w) = [].
Proof.
  intros (Hn & Hid & Hm). unfold clearPendingCommit.
  destruct (Host.timers (host w)) as [|tm [|tm' l]] eqn:Et; [| |contradiction].
  - destruct (handlePageVisibleTimeoutRef (viewer w)) as [id|]; [|exact Et].
    destruct (truthyNat id); [|exact Et].
    unfold Host.clearTimeout; simpl. now rewrite Et.
  - destruct Hm as (Href & Hpos & _). rewrite Href.
    unfold truthyNat. destruct (Nat.eqb_spec (Host.timerId tm) 0); [lia|].
    unfold Host.clearTimeout; simpl. rewrite Et.
    rewrite filter_cons_False by (intros H; now apply H). reflexivity.
Qed.

Lemma clearPendingCommit_frame w :
  Host.now (clearPendingCommit w) = Host.now (host w)
  ∧ Host.nextTimer (clearPendingCommit w) = Host.nextTimer (host w)
  ∧ Host.listeners (clearPendingCommit w) = Host.listeners (host w)
  ∧ Host.nextClosure (clearPendingCommit w) = Host.nextClosure (host w)
  ∧ Host.console (clearPendingCommit w) = Host.console (host w).
Proof.
  unfold clearPendingCommit.
  destruct (handlePageVisibleTimeoutRef (viewer w)) as [id|]; [|easy].
  destruct (truthyNat id); easy.
Qed.

(** What an accepted candidate leaves behind: exactly its own timer, due in
    300. *)
Lemma handlePageVisible_accept page w :
  timersInv w → lastPageRef (viewer w) ≠ page →
  let w' := handlePageVisible page w in
  Host.timers (host w')
    = [ {| Host.timerId := Host.nextTimer (host w);
           Host.deadline := Host.now (host w) + 300;
           Host.timerPage := page |} ]
  ∧ lastPageRef (viewer w') = page
  ∧ handlePageVisibleTimeoutRef (viewer w') = Some (Host.nextTimer (host w))
  ∧ Host.nextTimer (host w') = S (Host.nextTimer (host w))
  ∧ Host.now (host w') = Host.now (host w)
  ∧ currentPage (viewer w') = currentPage (viewer w)
  ∧ commits w' = commits w.
Proof.
  intros Hinv Hne. unfold handlePageVisible.
  destruct (Nat.eqb_spec (lastPageRef (viewer w)) page) as [E|_]; [contradiction|].
  pose proof (clearPendingCommit_timers w Hinv) as Hc.
  destruct (clearPendingCommit_frame w) as (Hnow & Hnt & _).
  unfold Host.setTimeout. cbn. rewrite Hc, Hnow, Hnt. easy.
Qed.

Lemma handlePageVisible_skip w :
  handlePageVisible (lastPageRef (viewer w)) w = w.
Proof. unfold handlePageVisible. now rewrite Nat.eqb_refl. Qed.

Lemma handlePageVisible_timersInv page w :
  timersInv w → timersInv (handlePageVisible page w).
Proof.
  intros Hinv.
  destruct (Nat.eq_dec (lastPageRef (viewer w)) page) as [<-|Hne].
  - now rewrite handlePageVisible_skip.
  - destruct (handlePageVisible_accept page w Hinv Hne)
      as (Ht & Hl & Hr & Hn & Hnow & _).
    destruct Hinv as (Hpos & _).
    unfold timersInv. rewrite Ht, Hl, Hr, Hn, Hnow. cbn.
    repeat split; try lia.
    intros tm Htm. apply list_elem_of_singleton in Htm. subst tm. cbn. lia.
Qed.

Lemma elapse_timersInv d w : timersInv w → timersInv (elapse d w).
Proof.
  intros (Hpos & Hid & Hm). unfold timersInv.
  rewrite elapse_host, elapse_viewer. cbn. unfold laterTimers.
  split; [exact Hpos|]. split.
  - intros tm Htm. apply list_elem_of_filter in Htm as [_ Htm]. now apply Hid.
  - destruct (Host.timers (host w)) as [|tm [|tm' l]]; [exact I| |contradiction].
    destruct (decide (Host.deadline tm ≤ Host.now (host w) + d)) as [Hd|Hd].
    + rewrite filter_cons_False by tauto. exact I.
    + rewrite filter_cons_True by exact Hd. cbn.
      destruct Hm as (? & ? & ? & ?). repeat split; try assumption; lia.
Qed.

(** ** Invariants of reachable states *)

Lemma timersInv_ext w w' :
  Host.timers (host w') = Host.timers (host w) →
  Host.nextTimer (host w') = Host.nextTimer (host w) →
  Host.now (host w') = Host.now (host w) →
  handlePageVisibleTimeoutRef (viewer w') = handlePageVisibleTimeoutRef (viewer w) →
  lastPageRef (viewer w') = lastPageRef (viewer w) →
  timersInv w → timersInv w'.
Proof.
  intros Ht Hn Hnow Hr Hl. unfold timersInv. now rewrite Ht, Hn, Hnow, Hr, Hl.
Qed.

Lemma listenersInv_ext h0 w w' :
  protectionCleanup (viewer w') = protectionCleanup (viewer w) →
  Host.listeners (host w') = Host.listeners (host w) →
  Host.nextClosure (host w') = Host.nextClosure (host w) →
  listenersInv h0 w → listenersInv h0 w'.
Proof. intros Hp Hl Hn. unfold listenersInv. now rewrite Hp, Hl, Hn. Qed.

Lemma own_closures_fresh h0 k :
  Host.ok h0 → Host.nextClosure h0 ≤ k →
  Forall (λ l, Dom.cbId (Dom.lCallback l) < k) (Host.listeners h0).
Proof.
  intros (_ & _ & Hall) Hk. revert Hall. apply List.Forall_impl.
  intros l Hl. lia.
Qed.

(** After the cleanup, whether one was held or not: no handler of the
    component is registered; the commit timer is gone if a cleanup ran. *)
Lemma runProtectionCleanup_spec h0 w :
  Host.ok h0 → listenersInv h0 w → timersInv w →
  let w' := runProtectionCleanup w in
  viewer w' = setProtectionCleanup (viewer w) None
  ∧ Host.listeners (host w') = Host.listeners h0
  ∧ Host.nextClosure (host w') = Host.nextClosure (host w)
  ∧ Host.nextTimer (host w') = Host.nextTimer (host w)
  ∧ Host.now (host w') = Host.now (host w)
  ∧ Host.console (host w') = Host.console (host w)
  ∧ (Host.timers (host w')
     = if isSome (protectionCleanup (viewer w)) then [] else Host.timers (host w))
  ∧ commits w' = commits w.
Proof.
  intros Hok [Hls Hcl] Htm. unfold runProtectionCleanup.
  destruct (protectionCleanup (viewer w)) as [k|] eqn:Ek.
  - destruct Hls as [Hls Hk].
    unfold protectionCleanupBody.
    set (w1 := {| viewer := viewer w; host := _; commits := commits w |}).
    assert (timersInv w1) as H1 by (eapply timersInv_ext; [..|exact Htm]; reflexivity).
    destruct (clearPendingCommit_frame w1) as (Hnow & Hnt & Hl & Hnc & Hco).
    cbn. rewrite Hl, Hnc, Hnt, Hco, Hnow, (clearPendingCommit_timers w1 H1).
    subst w1; cbn. rewrite Hls.
    rewrite removeProtection_installed by (now apply own_closures_fresh).
    repeat split.
  - repeat split; try assumption. destruct (viewer w); simpl in *. now subst.
Qed.

Lemma protectionEffect_spec h0 w :
  Host.ok h0 →
  protectionCleanup (viewer w) = None →
  Host.listeners (host w) = Host.listeners h0 →
  Host.nextClosure h0 ≤ Host.nextClosure (host w) →
  let w' := protectionEffect w in
  flagInv w' ∧ listenersInv h0 w'
  ∧ viewer w' = setProtectionCleanup (viewer w) (protectionCleanup (viewer w'))
  ∧ Host.timers (host w') = Host.timers (host w)
  ∧ Host.nextTimer (host w') = Host.nextTimer (host w)
  ∧ Host.now (host w') = Host.now (host w)
  ∧ Host.console (host w') = Host.console (host w)
  ∧ commits w' = commits w.
Proof.
  intros Hok Hnone Hls Hcl. unfold protectionEffect, flagInv, listenersInv.
  destruct (disableSecurity (props (viewer w))) eqn:Ed; cbn; rewrite ?Ed.
  - repeat split; assumption.
  - rewrite Hls, installProtection_fresh by (now apply own_closures_fresh).
    repeat split; lia.
Qed.

Lemma fileUrlEffect_spec w :
  let w' := fileUrlEffect w in
  urlInv w' ∧ host w' = host w ∧ commits w' = commits w
  ∧ props (viewer w') = props (viewer w)
  ∧ protectionCleanup (viewer w') = protectionCleanup (viewer w)
  ∧ lastPageRef (viewer w') = lastPageRef (viewer w)
  ∧ handlePageVisibleTimeoutRef (viewer w') = handlePageVisibleTimeoutRef (viewer w)
  ∧ currentPage (viewer w') = currentPage (viewer w)
  ∧ numPages (viewer w') = numPages (viewer w)
  ∧ pageRefs (viewer w') = pageRefs (viewer w)
  ∧ containerWidth (viewer w') = containerWidth (viewer w).
Proof.
  unfold fileUrlEffect, urlInv. case_bool_decide as Hd; cbn.
  - repeat split.
  - repeat split.
    destruct (decide (loadedUrlRef (viewer w) = Some (fileUrl (props (viewer w)))));
      [assumption | contradiction].
Qed.

Lemma handlePageVisible_frame page w :
  let w' := handlePageVisible page w in
  props (viewer w') = props (viewer w)
  ∧ numPages (viewer w') = numPages (viewer w)
  ∧ containerWidth (viewer w') = containerWidth (viewer w)
  ∧ isLoading (viewer w') = isLoading (viewer w)
  ∧ error (viewer w') = error (viewer w)
  ∧ currentPage (viewer w') = currentPage (viewer w)
  ∧ pageRefs (viewer w') = pageRefs (viewer w)
  ∧ loadedUrlRef (viewer w') = loadedUrlRef (viewer w)
  ∧ protectionCleanup (viewer w') = protectionCleanup (viewer w)
  ∧ Host.listeners (host w') = Host.listeners (host w)
  ∧ Host.nextClosure (host w') = Host.nextClosure (host w)
  ∧ Host.console (host w') = Host.console (host w)
  ∧ commits w' = commits w.
Proof.
  unfold handlePageVisible.
  destruct (Nat.eqb (lastPageRef (viewer w)) page); [easy|].
  destruct (clearPendingCommit_frame w) as (_ & _ & Hl & Hc & Hco).
  cbn. now rewrite Hl, Hc, Hco.
Qed.

(** A batch either changes nothing or reports one page to the debouncer. *)
Lemma onIntersect_cases entries w :
  onIntersect entries w = w
  ∨ ∃ page, onIntersect entries w = handlePageVisible page w.
Proof.
  unfold onIntersect, observerCallback.
  destruct (truthyNat (numPages (viewer w))); [|now left].
  destruct (mostVisible _ _) as [mv [page|]]; [|now left].
  destruct (_ && _); [right; now exists page | now left].
Qed.

Lemma Inv_handlePageVisible h0 page w :
  Inv h0 w → Inv h0 (handlePageVisible page w).
Proof.
  intros [Hu Hf Hl Ht].
  destruct (handlePageVisible_frame page w)
    as (Hp & _ & _ & _ & _ & _ & _ & Hlu & Hpc & Hls & Hnc & _ & _).
  split.
  - unfold urlInv. now rewrite Hlu, Hp.
  - unfold flagInv. now rewrite Hpc, Hp.
  - now apply (listenersInv_ext h0 w).
  - now apply handlePageVisible_timersInv.
Qed.

Lemma Inv_mount p h : Host.ok h → Inv h (mount p h).
Proof.
  intros Hok. unfold mount.
  set (w0 := {| viewer := initialState p; host := h; commits := [] |}).
  destruct (protectionEffect_spec h w0 Hok eq_refl eq_refl (Nat.le_refl _))
    as (Hf & Hl & Hv & Htm & Hnt & Hnow & _ & _).
  set (w1 := protectionEffect w0) in *.
  destruct (fileUrlEffect_spec w1)
    as (Hu & Hh & _ & Hp & Hpc & Hlp & Hr & _).
  split.
  - exact Hu.
  - unfold flagInv. now rewrite Hpc, Hp.
  - apply (listenersInv_ext h w1); [assumption|now rewrite Hh..|assumption].
  - apply timersInv_idle; rewrite Hh.
    + rewrite Hnt. apply Hok.
    + rewrite Htm. apply Hok.
Qed.

Lemma Inv_rerender h0 p w : Host.ok h0 → Inv h0 w → Inv h0 (rerender p w).
Proof.
  intros Hok [Hu Hf Hl Ht]. unfold rerender.
  set (w1 := withViewer (λ v, setProps v p) w).
  assert (Hl1 : listenersInv h0 w1) by (eapply listenersInv_ext; [..|exact Hl]; reflexivity).
  assert (Ht1 : timersInv w1) by (eapply timersInv_ext; [..|exact Ht]; reflexivity).
  set (w2 := if bool_decide (disableSecurity (props (viewer w)) = disableSecurity p)
             then w1 else protectionEffect (runProtectionCleanup w1)).
  assert (H2 : flagInv w2 ∧ listenersInv h0 w2 ∧ timersInv w2
               ∧ props (viewer w2) = p
               ∧ loadedUrlRef (viewer w2) = loadedUrlRef (viewer w)).
  { subst w2. case_bool_decide as Hd.
    - split; [|split; [exact Hl1|split; [exact Ht1|split; reflexivity]]].
      unfold flagInv. cbn. now rewrite <- Hd.
    - destruct (runProtectionCleanup_spec h0 w1 Hok Hl1 Ht1)
        as (Hv & Hls & Hnc & Hnt & Hnow & _ & Htm & _).
      set (w1' := runProtectionCleanup w1) in *.
      assert (Hnone : protectionCleanup (viewer w1') = None) by now rewrite Hv.
      assert (Hcl : Host.nextClosure h0 ≤ Host.nextClosure (host w1'))
        by (rewrite Hnc; apply Hl1).
      destruct (protectionEffect_spec h0 w1' Hok Hnone Hls Hcl)
        as (Hf' & Hl' & Hv' & Htm' & Hnt' & Hnow' & _ & _).
      split; [exact Hf'|]. split; [exact Hl'|].
      assert (Ht1' : timersInv w1').
      { destruct (isSome (protectionCleanup (viewer w1))).
        - apply timersInv_idle; [rewrite Hnt; apply Ht1 | exact Htm].
        - eapply timersInv_ext; [..|exact Ht1]; try assumption; now rewrite Hv. }
      split.
      + eapply timersInv_ext; [..|exact Ht1']; try assumption; now rewrite Hv'.
      + rewrite Hv', Hv. split; reflexivity. }
  destruct H2 as (Hf2 & Hl2 & Ht2 & Hp2 & Hlu2).
  case_bool_decide as Hd.
  - split; try assumption. unfold urlInv. rewrite Hlu2, Hp2, <- Hd. exact Hu.
  - destruct (fileUrlEffect_spec w2) as (Hu3 & Hh & _ & Hp & Hpc & Hlp & Hr & _).
    split.
    + exact Hu3.
    + unfold flagInv. rewrite Hpc, Hp. exact Hf2.
    + eapply listenersInv_ext; [..|exact Hl2]; now rewrite ?Hh.
    + eapply timersInv_ext; [..|exact Ht2]; now rewrite ?Hh.
Qed.

Lemma Inv_step h0 w e : Host.ok h0 → Inv h0 w → Inv h0 (step w e).
Proof.
  intros Hok HI. destruct e as [d|p|n doc|raw|entries|index el|entries]; cbn [step].
  - destruct HI as [Hu Hf Hl Ht]. split.
    + unfold urlInv. now rewrite elapse_viewer.
    + unfold flagInv. now rewrite elapse_viewer.
    + unfold listenersInv. now rewrite elapse_viewer, elapse_host.
    + now apply elapse_timersInv.
  - now apply Inv_rerender.
  - destruct HI as [Hu Hf Hl Ht]. split; assumption.
  - destruct HI as [Hu Hf Hl Ht]. split; assumption.
  - destruct HI as [Hu Hf Hl Ht].
    destruct entries as [|wd entries]; split; assumption.
  - destruct HI as [Hu Hf Hl Ht]. split; assumption.
  - destruct (onIntersect_cases entries w) as [->|[page ->]]; [exact HI|].
    now apply Inv_handlePageVisible.
Qed.

Lemma reachable_Inv p h w : reachable p h w → Host.ok h ∧ Inv h w.
Proof.
  induction 1 as [Hok|w e _ [Hok HI]].
  - split; [exact Hok | now apply Inv_mount].
  - split; [exact Hok | now apply Inv_step].
Qed.

Lemma reachable_run p h w evs : reachable p h w → reachable p h (run w evs).
Proof.
  revert w. induction evs as [|e evs IH]; intros w Hr; [exact Hr|].
  apply IH. now constructor.
Qed.

(** * The deterrence overlay *)

Lemma props_protectionEffect w :
  props (viewer (protectionEffect w)) = props (viewer w).
Proof. unfold protectionEffect. now destruct (disableSecurity _). Qed.

Lemma props_runProtectionCleanup w :
  props (viewer (runProtectionCleanup w)) = props (viewer w).
Proof. unfold runProtectionCleanup. now destruct (protectionCleanup _). Qed.

Lemma props_rerender p w : props (viewer (rerender p w)) = p.
Proof.
  unfold rerender.
  assert (∀ w', props (viewer (fileUrlEffect w')) = props (viewer w')) as Hf
    by (intros w'; apply fileUrlEffect_spec).
  repeat case_bool_decide;
    rewrite ?Hf, ?props_protectionEffect, ?props_runProtectionCleanup;
    reflexivity.
Qed.

Lemma Inv_disabled h w :
  Inv h w → disableSecurity (props (viewer w)) = true →
  Host.listeners (host w) = Host.listeners h.
Proof.
  intros [_ Hf [Hl _] _] Hd. unfold flagInv in Hf. rewrite Hd in Hf.
  destruct (protectionCleanup (viewer w)); [discriminate | exact Hl].
Qed.

Lemma Inv_enabled h w :
  Inv h w → disableSecurity (props (viewer w)) = false →
  ∃ k, protectionCleanup (viewer w) = Some k
       ∧ Host.listeners (host w) = Host.listeners h ++ installProtection k [].
Proof.
  intros [_ Hf [Hl _] _] Hd. unfold flagInv in Hf. rewrite Hd in Hf.
  destruct (protectionCleanup (viewer w)) as [k|]; [|discriminate].
  exists k. split; [reflexivity | apply Hl].
Qed.

Lemma installed_suppress k ty :
  ty ∈ ["contextmenu"; "dragstart"; "drop"; "copy"; "cut"; "paste";
        "selectstart"; "mousedown"] →
  ∀ ev, Dom.evType ev = ty →
  Dom.defaultPrevented (installProtection k []) ev = true.
Proof.
  intros Hty ev Hev. rewrite installProtection_nil. cbv zeta.
  unfold Dom.defaultPrevented. rewrite Hev.
  repeat (apply elem_of_cons in Hty as [->|Hty]; [reflexivity|]).
  inversion Hty.
Qed.

(** C7.  In every reachable state, tearing the component down, or rendering
    it with the opt-out flag set, leaves the document with exactly the
    listeners it had before the component was mounted: the nine capturing
    registrations of the activation are all removed, nothing else is, and an
    event is cancelled afterwards only if the page itself cancelled it before
    (so context-menu and copy go through on a page that did not cancel them).
    While the overlay is enabled the document carries exactly those nine behind
    its own listeners and they cancel context-menu and copy; while the flag is
    set it carries none. *)
Theorem protection_removed_together p h w :
  reachable p h w →
  Host.listeners (unmount w) = Host.listeners h
  ∧ Host.listeners
      (host (rerender (Props.setDisableSecurity (Some true) (props (viewer w))) w))
    = Host.listeners h
  ∧ (∀ ev, Dom.defaultPrevented (Host.listeners (unmount w)) ev
           = Dom.defaultPrevented (Host.listeners h) ev)
  ∧ (disableSecurity (props (viewer w)) = false →
     (∃ k, Host.listeners (host w) = Host.listeners h ++ installProtection k []
           ∧ map Dom.lType (installProtection k [])
             = ["contextmenu"; "keydown"; "dragstart"; "drop"; "copy"; "cut";
                "paste"; "selectstart"; "mousedown"]
           ∧ Forall (λ l, Dom.lCapture l = true) (installProtection k []))
     ∧ Dom.defaultPrevented (Host.listeners (host w)) (eventOfType "contextmenu") = true
     ∧ Dom.defaultPrevented (Host.listeners (host w)) (eventOfType "copy") = true)
  ∧ (disableSecurity (props (viewer w)) = true →
     Host.listeners (host w) = Host.listeners h).
Proof.
  intros Hr. destruct (reachable_Inv _ _ _ Hr) as [Hok HI].
  assert (Hun : Host.listeners (unmount w) = Host.listeners h).
  { unfold unmount.
    apply (runProtectionCleanup_spec h w Hok (inv_listeners _ _ HI) (inv_timers _ _ HI)). }
  split; [exact Hun|]. split; [|split; [|split]].
  - apply Inv_disabled.
    + now apply Inv_rerender.
    + now rewrite props_rerender.
  - intros ev. now rewrite Hun.
  - intros Hd. destruct (Inv_enabled h w HI Hd) as (k & _ & Hk). split; [|split].
    + exists k. split; [exact Hk|]. split; [reflexivity|].
      rewrite installProtection_nil. cbv zeta. repeat constructor.
    + rewrite Hk. unfold Dom.defaultPrevented. rewrite existsb_app.
      apply orb_true_iff. right.
      apply (installed_suppress k "contextmenu"); [repeat constructor | reflexivity].
    + rewrite Hk. unfold Dom.defaultPrevented. rewrite existsb_app.
      apply orb_true_iff. right.
      apply (installed_suppress k "copy"); [repeat constructor | reflexivity].
  - now apply Inv_disabled.
Qed.

Lemma sampleHost_ok : Host.ok sampleHost.
Proof.
  unfold Host.ok, sampleHost; simpl.
  split; [lia|]. split; [reflexivity|]. repeat constructor.
Defined.

Lemma protection_removed_together_witness :
  reachable (sampleProps "a.pdf") sampleHost (run mounted threePages)
  ∧ length (Host.listeners (host (run mounted threePages))) = 10
  ∧ Host.listeners (unmount (run mounted threePages)) = Host.listeners sampleHost
  ∧ Dom.defaultPrevented (Host.listeners (host (run mounted threePages)))
      (eventOfType "copy") = true
  ∧ Dom.defaultPrevented (Host.listeners (unmount (run mounted threePages)))
      (eventOfType "copy") = false.
Proof.
  assert (Hr : reachable (sampleProps "a.pdf") sampleHost (run mounted threePages))
    by (apply reachable_run, reach_mount, sampleHost_ok).
  destruct (protection_removed_together _ _ _ Hr) as (Hun & _ & Hev & Hen & _).
  split; [exact Hr|]. split; [reflexivity|]. split; [exact Hun|].
  split; [now apply Hen|]. rewrite Hev. reflexivity.
Defined.

(** * Teardown and the pending commit timer *)

Lemma unmount_timers p h w :
  reachable p h w →
  Host.timers (unmount w)
  = if disableSecurity (props (viewer w)) then Host.timers (host w) else [].
Proof.
  intros Hr. destruct (reachable_Inv _ _ _ Hr) as [Hok HI].
  destruct (runProtectionCleanup_spec h w Hok (inv_listeners _ _ HI) (inv_timers _ _ HI))
    as (_ & _ & _ & _ & _ & _ & Ht & _).
  unfold unmount. rewrite Ht. rewrite (inv_flag _ _ HI).
  now destruct (disableSecurity _).
Qed.

(** C10.  In every reachable state, unmounting cancels the pending commit
    timer exactly when the overlay is enabled: with [disableSecurity] false
    the host is left without pending timer, with [disableSecurity] true its
    timer queue is the one before the teardown. *)
Theorem teardown_cancels_commit_iff_protected p h w :
  reachable p h w →
  Host.timers (unmount w)
  = (if disableSecurity (props (viewer w)) then Host.timers (host w) else [])
  ∧ ∀ tm, tm ∈ Host.timers (host w) →
      (tm ∉ Host.timers (unmount w) ↔ disableSecurity (props (viewer w)) = false).
Proof.
  intros Hr. pose proof (unmount_timers p h w Hr) as Hu.
  split; [exact Hu|]. intros tm Htm. rewrite Hu.
  destruct (disableSecurity (props (viewer w))); split.
  - intros Hn. contradiction.
  - discriminate.
  - reflexivity.
  - intros _ Hin. inversion Hin.
Qed.

Lemma teardown_cancels_commit_iff_protected_witness :
  (reachable (sampleProps "a.pdf") sampleHost (run mounted scrollToTwo)
   ∧ length (Host.timers (host (run mounted scrollToTwo))) = 1
   ∧ Host.timers (unmount (run mounted scrollToTwo)) = [])
  ∧ (reachable unprotectedProps sampleHost (run mountedUnprotected scrollToTwo)
     ∧ length (Host.timers (host (run mountedUnprotected scrollToTwo))) = 1
     ∧ Host.timers (unmount (run mountedUnprotected scrollToTwo))
       = Host.timers (host (run mountedUnprotected scrollToTwo))).
Proof.
  split.
  - assert (Hr : reachable (sampleProps "a.pdf") sampleHost (run mounted scrollToTwo))
      by (apply reachable_run, reach_mount, sampleHost_ok).
    split; [exact Hr|]. split; [reflexivity|].
    exact (proj1 (teardown_cancels_commit_iff_protected _ _ _ Hr)).
  - assert (Hr : reachable unprotectedProps sampleHost
                           (run mountedUnprotected scrollToTwo))
      by (apply reachable_run, reach_mount, sampleHost_ok).
    split; [exact Hr|]. split; [reflexivity|].
    exact (proj1 (teardown_cancels_commit_iff_protected _ _ _ Hr)).
Defined.

(** * Debounced commit of the current page *)

Lemma filter_none {A} (P : A → Prop) `{∀ x, Decision (P x)} (l : list A) :
  (∀ x, x ∈ l → ¬ P x) → filter P l = [].
Proof.
  induction l as [|a l IH]; intros Hl; [reflexivity|].
  rewrite filter_cons_False by (apply Hl; left).
  apply IH. intros x Hx. apply Hl. now right.
Qed.

Lemma filter_every {A} (P : A → Prop) `{∀ x, Decision (P x)} (l : list A) :
  (∀ x, x ∈ l → P x) → filter P l = l.
Proof.
  induction l as [|a l IH]; intros Hl; [reflexivity|].
  rewrite filter_cons_True by (apply Hl; left).
  f_equal. apply IH. intros x Hx. apply Hl. now right.
Qed.

Lemma setCurrentPage_same v : setCurrentPage v (currentPage v) = v.
Proof. now destruct v. Qed.

(** Less than 300 after the timer was started nothing expires. *)
Lemma elapse_early gap w :
  justStarted w → gap < 300 →
  elapse gap w = withHost (Host.setNow (Host.now (host w) + gap)) w.
Proof.
  intros Hj Hg. unfold elapse, dueTimers, laterTimers.
  assert (Hdue : filter (λ tm, Host.deadline tm ≤ Host.now (host w) + gap)
                        (Host.timers (host w)) = []).
  { apply filter_none. intros tm Htm. rewrite (Hj tm Htm). lia. }
  assert (Hrest : filter (λ tm, ¬ Host.deadline tm ≤ Host.now (host w) + gap)
                         (Host.timers (host w)) = Host.timers (host w)).
  { apply filter_every. intros tm Htm. rewrite (Hj tm Htm). lia. }
  rewrite Hdue, Hrest. simpl. destruct w as [v h c]. unfold withHost; simpl.
  now destruct h.
Qed.

Lemma report_fresh w c :
  timersInv w → justStarted w → snd c ≠ lastPageRef (viewer w) → fst c < 300 →
  let w' := report w c in
  timersInv w' ∧ justStarted w'
  ∧ (∃ id, Host.timers (host w')
           = [ {| Host.timerId := id;
                  Host.deadline := Host.now (host w) + fst c + 300;
                  Host.timerPage := snd c |} ])
  ∧ lastPageRef (viewer w') = snd c
  ∧ Host.now (host w') = Host.now (host w) + fst c
  ∧ currentPage (viewer w') = currentPage (viewer w)
  ∧ commits w' = commits w.
Proof.
  intros Hinv Hj Hne Hg. unfold report.
  rewrite (elapse_early _ _ Hj Hg).
  set (w1 := withHost _ w).
  assert (H1 : timersInv w1).
  { subst w1. rewrite <- (elapse_early _ _ Hj Hg). now apply elapse_timersInv. }
  assert (Hne1 : lastPageRef (viewer w1) ≠ snd c) by (cbn; congruence).
  destruct (handlePageVisible_accept (snd c) w1 H1 Hne1)
    as (Ht & Hl & Hr & Hn & Hnow & Hcp & Hc).
  split; [now apply handlePageVisible_timersInv|].
  split; [|split; [|repeat split; assumption]].
  - intros tm Htm. rewrite Ht in Htm. apply list_elem_of_singleton in Htm.
    subst tm. rewrite Hnow. cbn. lia.
  - eexists. exact Ht.
Qed.

Lemma reportAll_chain cs : ∀ w,
  timersInv w → justStarted w → freshChain (lastPageRef (viewer w)) cs →
  cs ≠ [] →
  let w' := reportAll cs w in
  timersInv w'
  ∧ (∃ id, Host.timers (host w')
           = [ {| Host.timerId := id;
                  Host.deadline := Host.now (host w) + list_sum (map fst cs) + 300;
                  Host.timerPage := List.last (map snd cs) 0 |} ])
  ∧ Host.now (host w') = Host.now (host w) + list_sum (map fst cs)
  ∧ currentPage (viewer w') = currentPage (viewer w)
  ∧ commits w' = commits w.
Proof.
  induction cs as [|c r IH]; intros w Hinv Hj Hch Hne; [contradiction|].
  destruct Hch as (Hp & Hg & Hch).
  destruct (report_fresh w c Hinv Hj Hp Hg)
    as (Hinv1 & Hj1 & [id Ht1] & Hl1 & Hnow1 & Hcp1 & Hc1).
  change (reportAll (c :: r) w) with (reportAll r (report w c)).
  destruct r as [|c' r'].
  - cbn. rewrite Nat.add_0_r.
    split; [exact Hinv1|]. split; [now exists id|]. repeat split; assumption.
  - rewrite <- Hl1 in Hch.
    destruct (IH (report w c) Hinv1 Hj1 Hch ltac:(discriminate))
      as (Hinv2 & [id2 Ht2] & Hnow2 & Hcp2 & Hc2).
    split; [exact Hinv2|]. split; [|repeat split; try congruence].
    + exists id2. rewrite Ht2, Hnow1. f_equal. f_equal.
      change (list_sum (map fst (c :: c' :: r')))
        with (fst c + list_sum (map fst (c' :: r'))). lia.
    + rewrite Hnow2, Hnow1.
      change (list_sum (map fst (c :: c' :: r')))
        with (fst c + list_sum (map fst (c' :: r'))). lia.
Qed.

Lemma adjacentDistinct_chain r : ∀ c prev,
  adjacentDistinct (map snd (c :: r)) → Forall (λ c, fst c < 300) (c :: r) →
  snd c ≠ prev → freshChain prev (c :: r).
Proof.
  induction r as [|c' r IH]; intros c prev Had Hg Hp.
  - cbn. repeat split; [exact Hp | now inversion Hg].
  - destruct Had as [Hcc Had]. inversion Hg as [|? ? Hgc Hgr]; subst.
    cbn [freshChain]. split; [exact Hp|]. split; [exact Hgc|].
    apply IH; [exact Had | exact Hgr | congruence].
Qed.

(** After the quiet period the one pending timer commits. *)
Lemma elapse_commit d w id dl page :
  Host.timers (host w) = [ {| Host.timerId := id; Host.deadline := dl;
                              Host.timerPage := page |} ] →
  dl ≤ Host.now (host w) + d →
  commits (elapse d w) = commits w ++ [(dl, page)]
  ∧ currentPage (viewer (elapse d w)) = page
  ∧ Host.timers (host (elapse d w)) = [].
Proof.
  intros Ht Hd.
  rewrite elapse_commits, elapse_viewer, elapse_host.
  unfold dueTimers, laterTimers. rewrite Ht.
  rewrite filter_cons_True by exact Hd.
  rewrite filter_cons_False by (cbn; tauto).
  repeat split.
Qed.

(** C4 (as amended).  Start with no commit pending.  For every non-empty
    sequence of reports in which no page is reported twice in a row, every
    report less than 300 after the one before, and which is not just the page
    already recorded: nothing is committed while the reports arrive, and once
    300 have passed after the last report exactly one commit has been made,
    of the last reported page, 300 after that report. *)
Theorem debounce_commits_last_once w cs d :
  0 < Host.nextTimer (host w) → Host.timers (host w) = [] →
  cs ≠ [] → adjacentDistinct (map snd cs) →
  map snd cs ≠ [lastPageRef (viewer w)] →
  Forall (λ c, fst c < 300) cs → 300 ≤ d →
  commits (reportAll cs w) = commits w
  ∧ commits (elapse d (reportAll cs w))
    = commits w ++ [(Host.now (host w) + list_sum (map fst cs) + 300,
                     List.last (map snd cs) 0)]
  ∧ currentPage (viewer (elapse d (reportAll cs w))) = List.last (map snd cs) 0
  ∧ Host.timers (host (elapse d (reportAll cs w))) = [].
Proof.
  intros Hn Ht Hne Had Hnot Hg Hd.
  assert (Hinv : timersInv w) by now apply timersInv_idle.
  assert (Hj : justStarted w) by (intros tm Htm; rewrite Ht in Htm; inversion Htm).
  assert (Hfinish : ∀ w0 cs0,
             timersInv w0 → justStarted w0 →
             freshChain (lastPageRef (viewer w0)) cs0 → cs0 ≠ [] →
             let w1 := reportAll cs0 w0 in
             commits w1 = commits w0
             ∧ commits (elapse d w1)
               = commits w0 ++ [(Host.now (host w0) + list_sum (map fst cs0) + 300,
                                 List.last (map snd cs0) 0)]
             ∧ currentPage (viewer (elapse d w1)) = List.last (map snd cs0) 0
             ∧ Host.timers (host (elapse d w1)) = []).
  { intros w0 cs0 Hi0 Hj0 Hc0 Hne0.
    destruct (reportAll_chain cs0 w0 Hi0 Hj0 Hc0 Hne0)
      as (_ & [id Htm] & Hnow & _ & Hc).
    cbv zeta. split; [exact Hc|]. rewrite <- Hc.
    apply (elapse_commit d _ id); [exact Htm | rewrite Hnow; lia]. }
  destruct cs as [|c r]; [contradiction|].
  destruct (Nat.eq_dec (snd c) (lastPageRef (viewer w))) as [Heq|Hneq].
  - (* the first report repeats the recorded page and is skipped *)
    destruct r as [|c' r']; [cbn in Hnot; congruence|].
    assert (Hskip : report w c = withHost (Host.setNow (Host.now (host w) + fst c)) w).
    { unfold report. rewrite (elapse_idle _ _ Ht), Heq.
      apply (handlePageVisible_skip (withHost _ w)). }
    change (reportAll (c :: c' :: r') w) with (reportAll (c' :: r') (report w c)).
    rewrite Hskip. set (w1 := withHost _ w).
    assert (Hi1 : timersInv w1) by (apply timersInv_idle; assumption).
    assert (Hj1 : justStarted w1)
      by (intros tm Htm; cbn in Htm; rewrite Ht in Htm; inversion Htm).
    assert (Hc1 : freshChain (lastPageRef (viewer w1)) (c' :: r')).
    { destruct Had as [Hcc Had]. inversion Hg; subst.
      apply adjacentDistinct_chain; [exact Had | assumption | cbn; congruence]. }
    destruct (Hfinish w1 (c' :: r') Hi1 Hj1 Hc1 ltac:(discriminate))
      as (H1 & H2 & H3 & H4).
    split; [exact H1|]. split; [|split; assumption].
    rewrite H2. cbn [w1 withHost host commits Host.setNow Host.now].
    change (list_sum (map fst (c :: c' :: r')))
      with (fst c + list_sum (map fst (c' :: r'))).
    do 3 f_equal. lia.
  - apply Hfinish; try assumption.
    apply adjacentDistinct_chain; assumption.
Qed.

Lemma debounce_commits_last_once_witness :
  commits (reportAll fastScroll mounted) = []
  ∧ commits (elapse 300 (reportAll fastScroll mounted)) = [(699, 4)]
  ∧ currentPage (viewer (elapse 300 (reportAll fastScroll mounted))) = 4.
Proof.
  assert (H : commits (reportAll fastScroll mounted) = commits mounted
              ∧ commits (elapse 300 (reportAll fastScroll mounted))
                = commits mounted
                  ++ [(Host.now (host mounted) + list_sum (map fst fastScroll) + 300,
                       List.last (map snd fastScroll) 0)]
              ∧ currentPage (viewer (elapse 300 (reportAll fastScroll mounted)))
                = List.last (map snd fastScroll) 0
              ∧ Host.timers (host (elapse 300 (reportAll fastScroll mounted))) = []).
  { apply debounce_commits_last_once.
    - vm_compute. lia.
    - reflexivity.
    - discriminate.
    - cbn. repeat split; discriminate.
    - discriminate.
    - repeat constructor; cbn; lia.
    - lia. }
  destruct H as (H1 & H2 & H3 & _).
  split; [exact H1|]. split; [exact H2 | exact H3].
Defined.

(** C4 as stated fails: the page already recorded, reported alone, is
    skipped, so the window ends without any commit. *)
Lemma debounce_repeat_commits_nothing :
  lastPageRef (viewer mounted) = 1
  ∧ Host.timers (host (reportAll [(0, 1)] mounted)) = []
  ∧ commits (elapse 300 (reportAll [(0, 1)] mounted)) = []
  ∧ length (commits (elapse 300 (reportAll [(0, 1)] mounted))) ≠ 1.
Proof.
  split; [reflexivity|]. split; [reflexivity|]. split; [reflexivity | discriminate].
Qed.

(** * Selection of the most visible page *)

Lemma Qgtb_true a b : Qgtb a b = true ↔ (b < a)%Q.
Proof.
  unfold Qgtb. destruct (Qle_bool a b) eqn:E; simpl.
  - apply Qle_bool_iff in E. split; [discriminate|].
    intros H. exfalso. now apply (Qlt_not_le b a).
  - split; [|reflexivity]. intros _. apply Qnot_le_lt. intros Hle.
    apply Qle_bool_iff in Hle. congruence.
Qed.

Lemma Qgtb_false a b : Qgtb a b = false ↔ (a <= b)%Q.
Proof.
  unfold Qgtb. destruct (Qle_bool a b) eqn:E; simpl.
  - apply Qle_bool_iff in E. split; [intros _; exact E | reflexivity].
  - split; [discriminate|]. intros Hle. apply Qle_bool_iff in Hle. congruence.
Qed.

Lemma findIndex_Some refs tg i :
  findIndex refs tg = Some i ↔
  refs !! i = Some (Some tg) ∧ ∀ j, j < i → refs !! j ≠ Some (Some tg).
Proof.
  unfold findIndex. split.
  - intros H. apply fmap_Some in H as ([i' x] & Hf & ->).
    apply list_find_Some in Hf as (Hl & -> & Hmin). split; [exact Hl|].
    intros j Hj Hlj. exact (Hmin j _ Hlj Hj eq_refl).
  - intros [Hl Hmin]. apply fmap_Some. exists (i, Some tg). split; [|reflexivity].
    apply list_find_Some. split; [exact Hl|]. split; [reflexivity|].
    intros j y Hy Hj ->. exact (Hmin j Hj Hy).
Qed.

(** What the loop has computed when it ends: either no intersecting entry had
    a positive ratio and the locals are untouched, or the batch splits around
    the first entry of greatest ratio, whose ratio is [maxVisibility] and
    whose page, when its surface is held in [pageRefs], is [visiblePage]. *)
Lemma mostVisible_spec refs entries :
  let '(maxVisibility, visiblePage) := mostVisible refs entries in
  (maxVisibility = 0%Q ∧ visiblePage = None
   ∧ Forall (λ e, isIntersecting e = true → (intersectionRatio e <= 0)%Q) entries)
  ∨ (∃ before e after,
       entries = before ++ e :: after
       ∧ isIntersecting e = true
       ∧ maxVisibility = intersectionRatio e
       ∧ (0 < intersectionRatio e)%Q
       ∧ Forall (λ e', isIntersecting e' = true →
                       (intersectionRatio e' < intersectionRatio e)%Q) before
       ∧ Forall (λ e', isIntersecting e' = true →
                       (intersectionRatio e' <= intersectionRatio e)%Q) after
       ∧ ∀ i, findIndex refs (target e) = Some i → visiblePage = Some (i + 1)).
Proof.
  unfold mostVisible.
  induction entries as [|x l IH] using rev_ind; [left; repeat split; constructor|].
  rewrite foldl_app. cbn [foldl].
  destruct (foldl (scanEntry refs) (0%Q, None) l) as [mv vp].
  unfold scanEntry.
  destruct (isIntersecting x) eqn:Ex; cbn [andb].
  - destruct (Qgtb (intersectionRatio x) mv) eqn:Eg.
    + (* [x] takes over *)
      apply Qgtb_true in Eg. right. exists l, x, []. split; [reflexivity|].
      split; [exact Ex|]. split; [reflexivity|].
      destruct IH as [(-> & -> & Hall)|(b & e & a & -> & He & -> & Hpos & Hb & Ha & Hv)].
      * split; [exact Eg|]. split; [|split; [constructor|]].
        -- revert Hall. apply List.Forall_impl. intros e' He' Hi.
           eapply Qle_lt_trans; [now apply He' | exact Eg].
        -- intros i ->. reflexivity.
      * split; [now apply (Qlt_trans _ (intersectionRatio e))|].
        split; [|split; [constructor|]].
        -- apply Forall_app. split; [|constructor].
           ++ revert Hb. apply List.Forall_impl. intros e' He' Hi.
              eapply Qlt_trans; [now apply He' | exact Eg].
           ++ intros _. exact Eg.
           ++ revert Ha. apply List.Forall_impl. intros e' He' Hi.
              eapply Qle_lt_trans; [now apply He' | exact Eg].
        -- intros i ->. reflexivity.
    + apply Qgtb_false in Eg.
      destruct IH as [(-> & -> & Hall)|(b & e & a & -> & He & -> & Hpos & Hb & Ha & Hv)].
      * left. repeat split. apply Forall_app. split; [exact Hall|].
        constructor; [intros _; exact Eg | constructor].
      * right. exists b, e, (a ++ [x]). split; [now rewrite <- app_assoc|].
        repeat split; try assumption.
        apply Forall_app. split; [exact Ha|].
        constructor; [intros _; exact Eg | constructor].
  - destruct IH as [(-> & -> & Hall)|(b & e & a & -> & He & -> & Hpos & Hb & Ha & Hv)].
    + left. repeat split. apply Forall_app. split; [exact Hall|].
      constructor; [intros; congruence | constructor].
    + right. exists b, e, (a ++ [x]). split; [now rewrite <- app_assoc|].
      repeat split; try assumption.
      apply Forall_app. split; [exact Ha|].
      constructor; [intros; congruence | constructor].
Qed.

(** A batch without an intersecting ratio above 0.3 changes nothing, whatever
    its targets are. *)
Lemma observerCallback_quiet entries w :
  Forall (λ e, isIntersecting e = true → (intersectionRatio e <= 0.3)%Q) entries →
  observerCallback entries w = w.
Proof.
  intros Hq. unfold observerCallback.
  pose proof (mostVisible_spec (pageRefs (viewer w)) entries) as Hs.
  destruct (mostVisible _ _) as [mv vp].
  destruct Hs as [(_ & -> & _)|(b & e & a & -> & He & -> & _)]; [reflexivity|].
  destruct vp as [page|]; [|reflexivity].
  apply Forall_app in Hq as [_ Hq]. inversion Hq as [|? ? Hq' _]; subst.
  apply Hq', Qgtb_false in He. rewrite He, andb_false_r. reflexivity.
Qed.

(** C6.  For a batch whose intersecting entries are all on surfaces held in
    [pageRefs]: either no intersecting entry has a ratio above 0.3 and the
    callback changes nothing (current page, recorded page and pending commit
    stay as they are), or the batch splits around one entry, of ratio above
    0.3, strictly greater than the ratio of every intersecting entry before
    it and at least the ratio of every one after it, and the page of that
    entry is what is handed to [handlePageVisible]. *)
Theorem most_visible_page_selected entries w :
  registered (pageRefs (viewer w)) entries →
  (Forall (λ e, isIntersecting e = true → (intersectionRatio e <= 0.3)%Q) entries
   ∧ observerCallback entries w = w)
  ∨ (∃ before e after i,
       entries = before ++ e :: after
       ∧ isIntersecting e = true
       ∧ (0.3 < intersectionRatio e)%Q
       ∧ findIndex (pageRefs (viewer w)) (target e) = Some i
       ∧ Forall (λ e', isIntersecting e' = true →
                       (intersectionRatio e' < intersectionRatio e)%Q) before
       ∧ Forall (λ e', isIntersecting e' = true →
                       (intersectionRatio e' <= intersectionRatio e)%Q) after
       ∧ observerCallback entries w = handlePageVisible (i + 1) w).
Proof.
  intros Hreg.
  pose proof (mostVisible_spec (pageRefs (viewer w)) entries) as Hs.
  unfold observerCallback.
  destruct (mostVisible _ _) as [mv vp].
  destruct Hs as [(-> & -> & Hall)|(b & e & a & -> & He & -> & Hpos & Hb & Ha & Hv)].
  - left. split; [|reflexivity].
    revert Hall. apply List.Forall_impl. intros e He Hi.
    eapply Qle_trans; [now apply He | discriminate].
  - destruct (Hreg e) as [i Hi]; [apply elem_of_app; right; left | exact He |].
    rewrite (Hv i Hi).
    assert (Ht : truthyNat (i + 1) = true)
      by (unfold truthyNat; destruct (Nat.eqb_spec (i + 1) 0); [lia | reflexivity]).
    rewrite Ht. cbn [andb].
    destruct (Qgtb (intersectionRatio e) 0.3) eqn:Eg.
    + apply Qgtb_true in Eg. right. exists b, e, a, i. repeat split; assumption.
    + apply Qgtb_false in Eg. left. split; [|reflexivity].
      apply Forall_app. split; [|constructor].
      * revert Hb. apply List.Forall_impl. intros e' He' Hi'.
        apply Qlt_le_weak. eapply Qlt_le_trans; [now apply He' | exact Eg].
      * intros _. exact Eg.
      * revert Ha. apply List.Forall_impl. intros e' He' Hi'.
        eapply Qle_trans; [now apply He' | exact Eg].
Qed.

Lemma tiedBatch_registered :
  registered (pageRefs (viewer (run mounted threePages))) tiedBatch.
Proof.
  intros e He _. unfold tiedBatch in He.
  repeat (apply elem_of_cons in He as [->|He]; [eexists; reflexivity|]).
  inversion He.
Defined.

Lemma most_visible_page_selected_witness :
  registered (pageRefs (viewer (run mounted threePages))) tiedBatch
  ∧ observerCallback tiedBatch (run mounted threePages)
    = handlePageVisible 2 (run mounted threePages)
  ∧ ((Forall (λ e, isIntersecting e = true → (intersectionRatio e <= 0.3)%Q)
             tiedBatch
      ∧ observerCallback tiedBatch (run mounted threePages)
        = run mounted threePages)
     ∨ (∃ before e after i,
          tiedBatch = before ++ e :: after
          ∧ isIntersecting e = true
          ∧ (0.3 < intersectionRatio e)%Q
          ∧ findIndex (pageRefs (viewer (run mounted threePages))) (target e)
            = Some i
          ∧ Forall (λ e', isIntersecting e' = true →
                          (intersectionRatio e' < intersectionRatio e)%Q) before
          ∧ Forall (λ e', isIntersecting e' = true →
                          (intersectionRatio e' <= intersectionRatio e)%Q) after
          ∧ observerCallback tiedBatch (run mounted threePages)
            = handlePageVisible (i + 1) (run mounted threePages))).
Proof.
  split; [exact tiedBatch_registered|]. split; [reflexivity|].
  exact (most_visible_page_selected tiedBatch (run mounted threePages)
           tiedBatch_registered).
Defined.

(** * The current page along a run *)

(** What the run-level argument needs of a batch: it changes nothing, or it
    hands over the page of an entry it reports above the threshold. *)
Lemma observerCallback_selects entries w :
  registered (pageRefs (viewer w)) entries →
  observerCallback entries w = w
  ∨ ∃ en i, en ∈ entries ∧ isIntersecting en = true
            ∧ (0.3 < intersectionRatio en)%Q
            ∧ findIndex (pageRefs (viewer w)) (target en) = Some i
            ∧ observerCallback entries w = handlePageVisible (i + 1) w.
Proof.
  intros Hreg.
  pose proof (mostVisible_spec (pageRefs (viewer w)) entries) as Hs.
  unfold observerCallback.
  destruct (mostVisible _ _) as [mv vp].
  destruct Hs as [(_ & -> & _)|(b & e & a & -> & He & -> & _ & _ & _ & Hv)];
    [now left|].
  assert (Hin : e ∈ b ++ e :: a) by (apply elem_of_app; right; left).
  destruct (Hreg e Hin He) as [i Hi]. rewrite (Hv i Hi).
  destruct (truthyNat (i + 1)); [|now left]. cbn [andb].
  destruct (Qgtb (intersectionRatio e) 0.3) eqn:Eg; [|now left].
  apply Qgtb_true in Eg. right. exists e, i. repeat split; assumption.
Qed.


Lemma clearPendingCommit_sub w tm :
  tm ∈ Host.timers (clearPendingCommit w) → tm ∈ Host.timers (host w).
Proof.
  unfold clearPendingCommit.
  destruct (handlePageVisibleTimeoutRef (viewer w)) as [id|]; [|easy].
  destruct (truthyNat id); [|easy].
  cbn. intros H. now apply list_elem_of_filter in H.
Qed.

Lemma last_in {A} (l : list A) d : List.last l d ∈ d :: l.
Proof.
  induction l as [|a l IH]; [left|].
  destruct l as [|b l]; [right; left|].
  change (List.last (a :: b :: l) d) with (List.last (b :: l) d).
  apply elem_of_cons in IH as [IH|IH]; [rewrite IH; left | right; now right].
Qed.

Lemma handlePageVisible_pages page w q :
  q ∈ pagesOf (handlePageVisible page w) → q ∈ pagesOf w ∨ q = page.
Proof.
  unfold handlePageVisible.
  destruct (Nat.eqb (lastPageRef (viewer w)) page); [now left|].
  unfold pagesOf. cbn. rewrite map_app. cbn.
  intros H. apply elem_of_cons in H as [->|H]; [left; left|].
  apply elem_of_cons in H as [->|H]; [now right|].
  apply elem_of_app in H as [H|H].
  - left. do 2 right. apply list_elem_of_fmap in H as (tm & -> & Htm).
    apply list_elem_of_fmap. exists tm. split; [reflexivity|].
    now apply clearPendingCommit_sub.
  - apply list_elem_of_singleton in H. now right.
Qed.

Lemma elapse_pages d w q : q ∈ pagesOf (elapse d w) → q ∈ pagesOf w.
Proof.
  unfold pagesOf. rewrite elapse_viewer, elapse_host. cbn.
  intros H. apply elem_of_cons in H as [->|H].
  - pose proof (last_in (map Host.timerPage (dueTimers d w)) (currentPage (viewer w))) as Hl.
    apply elem_of_cons in Hl as [->|Hl]; [left|].
    do 2 right. apply list_elem_of_fmap in Hl as (tm & -> & Htm).
    apply list_elem_of_fmap. exists tm. split; [reflexivity|].
    now apply list_elem_of_filter in Htm.
  - apply elem_of_cons in H as [->|H]; [right; left|].
    do 2 right. apply list_elem_of_fmap in H as (tm & -> & Htm).
    apply list_elem_of_fmap. exists tm. split; [reflexivity|].
    now apply list_elem_of_filter in Htm.
Qed.

(** What a render with new props leaves alone. *)
Lemma protectionEffect_frame w :
  let w' := protectionEffect w in
  currentPage (viewer w') = currentPage (viewer w)
  ∧ lastPageRef (viewer w') = lastPageRef (viewer w)
  ∧ numPages (viewer w') = numPages (viewer w)
  ∧ pageRefs (viewer w') = pageRefs (viewer w)
  ∧ isLoading (viewer w') = isLoading (viewer w)
  ∧ error (viewer w') = error (viewer w)
  ∧ loadedUrlRef (viewer w') = loadedUrlRef (viewer w)
  ∧ containerWidth (viewer w') = containerWidth (viewer w)
  ∧ Host.timers (host w') = Host.timers (host w)
  ∧ commits w' = commits w.
Proof. unfold protectionEffect. now destruct (disableSecurity _). Qed.

Lemma runProtectionCleanup_frame w :
  let w' := runProtectionCleanup w in
  currentPage (viewer w') = currentPage (viewer w)
  ∧ lastPageRef (viewer w') = lastPageRef (viewer w)
  ∧ numPages (viewer w') = numPages (viewer w)
  ∧ pageRefs (viewer w') = pageRefs (viewer w)
  ∧ isLoading (viewer w') = isLoading (viewer w)
  ∧ error (viewer w') = error (viewer w)
  ∧ loadedUrlRef (viewer w') = loadedUrlRef (viewer w)
  ∧ containerWidth (viewer w') = containerWidth (viewer w)
  ∧ (∀ tm, tm ∈ Host.timers (host w') → tm ∈ Host.timers (host w))
  ∧ commits w' = commits w.
Proof.
  unfold runProtectionCleanup.
  destruct (protectionCleanup (viewer w)) as [k|]; [|easy].
  cbn. repeat split. intros tm Htm. unfold protectionCleanupBody in Htm.
  now apply clearPendingCommit_sub in Htm.
Qed.

Lemma rerender_frame p w :
  let w' := rerender p w in
  currentPage (viewer w') = currentPage (viewer w)
  ∧ lastPageRef (viewer w') = lastPageRef (viewer w)
  ∧ numPages (viewer w') = numPages (viewer w)
  ∧ pageRefs (viewer w') = pageRefs (viewer w)
  ∧ containerWidth (viewer w') = containerWidth (viewer w)
  ∧ (∀ tm, tm ∈ Host.timers (host w') → tm ∈ Host.timers (host w))
  ∧ commits w' = commits w.
Proof.
  unfold rerender.
  set (w1 := withViewer (λ v, setProps v p) w).
  set (w2 := if bool_decide _ then w1 else protectionEffect (runProtectionCleanup w1)).
  assert (H2 : currentPage (viewer w2) = currentPage (viewer w)
               ∧ lastPageRef (viewer w2) = lastPageRef (viewer w)
               ∧ numPages (viewer w2) = numPages (viewer w)
               ∧ pageRefs (viewer w2) = pageRefs (viewer w)
               ∧ containerWidth (viewer w2) = containerWidth (viewer w)
               ∧ (∀ tm, tm ∈ Host.timers (host w2) → tm ∈ Host.timers (host w))
               ∧ commits w2 = commits w).
  { subst w2. case_bool_decide; [easy|].
    destruct (runProtectionCleanup_frame w1)
      as (A1 & A2 & A3 & A4 & _ & _ & _ & A5 & A6 & A7).
    destruct (protectionEffect_frame (runProtectionCleanup w1))
      as (B1 & B2 & B3 & B4 & _ & _ & _ & B5 & B6 & B7).
    rewrite B1, B2, B3, B4, B5, B6, B7, A1, A2, A3, A4, A5, A7.
    repeat split. exact A6. }
  case_bool_decide; [exact H2|].
  destruct (fileUrlEffect_spec w2)
    as (_ & Hh & Hc & _ & _ & Hl & _ & Hcp & Hn & Hr & Hw).
  rewrite Hh, Hc, Hl, Hcp, Hn, Hr, Hw. exact H2.
Qed.

(** One event: the pages held afterwards were held before, or the event is
    a batch that reports them above the threshold. *)
Lemma step_pages w e q :
  match e with
  | Intersect entries => registered (pageRefs (viewer w)) entries
  | _ => True
  end →
  q ∈ pagesOf (step w e) → q ∈ pagesOf w ∨ selects w e q.
Proof.
  intros Hreg Hq.
  destruct e as [d|p|n doc|raw|entries|index el|entries]; cbn [step] in Hq.
  - left. now apply elapse_pages in Hq.
  - left. destruct (rerender_frame p w) as (Hc & Hl & _ & _ & _ & Ht & _).
    unfold pagesOf in *. rewrite Hc, Hl in Hq.
    apply elem_of_cons in Hq as [->|Hq]; [left|].
    apply elem_of_cons in Hq as [->|Hq]; [right; left|].
    do 2 right. apply list_elem_of_fmap in Hq as (tm & -> & Htm).
    apply list_elem_of_fmap. exists tm. split; [reflexivity | now apply Ht].
  - now left.
  - now left.
  - left. now destruct entries.
  - now left.
  - unfold onIntersect in Hq.
    destruct (truthyNat (numPages (viewer w))); [|now left].
    destruct (observerCallback_selects entries w Hreg)
      as [Heq|(en & i & Hen & Hi & Hr & Hf & Heq)];
      rewrite Heq in Hq; [now left|].
    apply handlePageVisible_pages in Hq as [Hq| ->]; [now left|].
    right. exists en, i. repeat split; assumption.
Qed.

Lemma run_pages evs : ∀ w (held : nat → Prop),
  batchesRegistered w evs →
  (∀ q, q ∈ pagesOf w → held q) →
  ∀ q, q ∈ pagesOf (run w evs) → held q ∨ selectedDuring w evs q.
Proof.
  induction evs as [|e evs IH]; intros w held Hreg Hheld q Hq.
  - left. now apply Hheld.
  - destruct Hreg as [Hreg Hrest].
    change (run w (e :: evs)) with (run (step w e) evs) in Hq.
    destruct (IH (step w e) (λ q, held q ∨ selects w e q) Hrest) with (q := q)
      as [[H|H]|H]; try assumption.
    + intros q' Hq'. apply step_pages in Hq' as [Hq'|Hq']; [|now right|exact Hreg].
      left. now apply Hheld.
    + now left.
    + right. now left.
    + right. now right.
Qed.

Lemma mount_atDefaultPage p h : Host.ok h → atDefaultPage (mount p h).
Proof.
  intros (_ & Ht & _). unfold mount.
  set (w0 := {| viewer := initialState p; host := h; commits := [] |}).
  destruct (protectionEffect_frame w0) as (A1 & A2 & _ & _ & _ & _ & _ & _ & A3 & A4).
  destruct (fileUrlEffect_spec (protectionEffect w0))
    as (_ & Hh & Hc & _ & _ & Hl & _ & Hcp & _).
  unfold atDefaultPage. rewrite Hh, Hc, Hl, Hcp, A1, A2, A3, A4. now repeat split.
Qed.

Lemma step_atDefaultPage w e :
  (∀ entries en, e = Intersect entries → en ∈ entries →
     isIntersecting en = true → (intersectionRatio en <= 0.3)%Q) →
  atDefaultPage w → atDefaultPage (step w e).
Proof.
  intros Hq (Hc & Hl & Ht & Hm).
  destruct e as [d|p|n doc|raw|entries|index el|entries]; cbn [step].
  - rewrite (elapse_idle _ _ Ht). now repeat split.
  - destruct (rerender_frame p w) as (A1 & A2 & _ & _ & _ & A3 & A4).
    unfold atDefaultPage. rewrite A1, A2, A4. repeat split; try assumption.
    destruct (Host.timers (host (rerender p w))) as [|tm l]; [reflexivity|].
    specialize (A3 tm ltac:(left)). rewrite Ht in A3. inversion A3.
  - now repeat split.
  - now repeat split.
  - destruct entries; now repeat split.
  - now repeat split.
  - unfold onIntersect. destruct (truthyNat _); [|now repeat split].
    rewrite observerCallback_quiet; [now repeat split|].
    apply Forall_forall. intros en Hen. apply (Hq entries en eq_refl).
    now apply list_elem_of_In.
Qed.

Lemma run_atDefaultPage evs : ∀ w,
  neverSignificant evs → atDefaultPage w → atDefaultPage (run w evs).
Proof.
  induction evs as [|e evs IH]; intros w Hq Hw; [exact Hw|].
  apply IH.
  - intros entries en Hin. apply Hq. now right.
  - apply step_atDefaultPage; [|exact Hw].
    intros entries en -> . apply Hq. left.
Qed.

(** C5 (as amended).  After any run from mount in which the intersecting
    entries of every batch are on surfaces held in [pageRefs], the current
    page is either 1 or a page that a batch of the run reported as
    intersecting with a ratio above 0.3; and after any run whatever in which
    no batch reports an intersecting ratio above 0.3, the current page is
    still 1 and nothing has been committed. *)
Theorem current_page_selected_above_threshold p h evs :
  Host.ok h →
  (batchesRegistered (mount p h) evs →
   currentPage (viewer (run (mount p h) evs)) = 1
   ∨ selectedDuring (mount p h) evs (currentPage (viewer (run (mount p h) evs))))
  ∧ (neverSignificant evs →
     currentPage (viewer (run (mount p h) evs)) = 1
     ∧ commits (run (mount p h) evs) = []).
Proof.
  intros Hok. pose proof (mount_atDefaultPage p h Hok) as Hd. split.
  - intros Hreg.
    apply (run_pages evs (mount p h) (λ q, q = 1) Hreg).
    + destruct Hd as (Hc & Hl & Ht & _). unfold pagesOf. rewrite Hc, Hl, Ht.
      intros q Hq. cbn in Hq.
      apply elem_of_cons in Hq as [->|Hq]; [reflexivity|].
      apply list_elem_of_singleton in Hq. exact Hq.
    + left.
  - intros Hq. destruct (run_atDefaultPage evs _ Hq Hd) as (Hc & _ & _ & Hm).
    now split.
Qed.

Lemma lingering_registered : batchesRegistered mounted (lingering ++ [Elapse 200]).
Proof.
  cbn [lingering threePages app batchesRegistered].
  repeat split; intros e He _;
    apply list_elem_of_singleton in He; subst e; eexists; reflexivity.
Defined.

Lemma barelyVisible_quiet : neverSignificant barelyVisible.
Proof.
  intros entries en Hin Hen _. unfold barelyVisible, threePages in Hin. cbn in Hin.
  repeat (apply elem_of_cons in Hin as [Hin|Hin]; [try discriminate Hin|]).
  - injection Hin as ->. apply list_elem_of_singleton in Hen. subst en.
    vm_compute. discriminate.
  - injection Hin as ->.
    apply elem_of_cons in Hen as [->|Hen]; [vm_compute; discriminate|].
    apply list_elem_of_singleton in Hen. subst en. vm_compute. discriminate.
  - inversion Hin.
Defined.

Lemma current_page_selected_above_threshold_witness :
  Host.ok sampleHost
  ∧ (batchesRegistered mounted (lingering ++ [Elapse 200])
     ∧ currentPage (viewer (run mounted (lingering ++ [Elapse 200]))) = 2
     ∧ selectedDuring mounted (lingering ++ [Elapse 200]) 2)
  ∧ (neverSignificant barelyVisible
     ∧ currentPage (viewer (run mounted barelyVisible)) = 1).
Proof.
  split; [exact sampleHost_ok|]. split.
  - split; [exact lingering_registered|]. split; [reflexivity|].
    destruct (proj1 (current_page_selected_above_threshold
                       (sampleProps "a.pdf") sampleHost
                       (lingering ++ [Elapse 200]) sampleHost_ok)
                    lingering_registered) as [H|H].
    + discriminate H.
    + exact H.
  - split; [exact barelyVisible_quiet|].
    exact (proj1 (proj2 (current_page_selected_above_threshold
                           (sampleProps "a.pdf") sampleHost barelyVisible
                           sampleHost_ok) barelyVisible_quiet)).
Defined.

(** C5 as stated fails: page 2 is committed 300 after it was selected,
    although the latest ratio reported for its surface by then is a quarter. *)
Lemma commit_below_threshold :
  findIndex (pageRefs (viewer (run mounted lingering))) 11 = Some 1
  ∧ latestRatio 11 lingering = Some 0.25%Q
  ∧ ¬ (0.3 < 0.25)%Q
  ∧ commits (run mounted lingering) = []
  ∧ commits (elapse 200 (run mounted lingering)) = [(300, 2)]
  ∧ currentPage (viewer (elapse 200 (run mounted lingering))) = 2.
Proof.
  split; [reflexivity|]. split; [reflexivity|].
  split; [intros H; vm_compute in H; discriminate|].
  split; [reflexivity|]. split; reflexivity.
Qed.

(** * Load lifecycle *)

Lemma setFileUrl_same p : Props.setFileUrl (fileUrl p) p = p.
Proof. now destruct p. Qed.

Lemma rerender_same w : rerender (props (viewer w)) w = w.
Proof.
  unfold rerender. rewrite !bool_decide_eq_true_2 by reflexivity.
  destruct w as [v h c]. unfold withViewer; cbn. now destruct v.
Qed.

Lemma load_same w : load (fileUrl (props (viewer w))) w = w.
Proof. unfold load. rewrite setFileUrl_same. apply rerender_same. Qed.

Lemma status_failed v msg :
  error v = Some msg → truthyString msg = true → status v = Failed.
Proof. intros He Ht. unfold status, errorShown. now rewrite He, Ht. Qed.

(** C1 (as amended).  Loading the URL the component already has changes
    nothing at all.  The two result handlers take no URL and apply every
    result they are handed, whatever load it stems from: a success makes the
    session Ready with the reported page count, a failure makes it Failed and
    leaves the page count. *)
Theorem load_idempotent_results_applied w a :
  load (fileUrl (props (viewer w))) w = w
  ∧ match outcome a with
    | Loaded n doc =>
        status (viewer (deliver a w)) = Ready
        ∧ numPages (viewer (deliver a w)) = n
    | Failure raw =>
        status (viewer (deliver a w)) = Failed
        ∧ numPages (viewer (deliver a w)) = numPages (viewer w)
    end.
Proof.
  split; [apply load_same|]. unfold deliver.
  destruct (outcome a) as [n doc|raw]; split; reflexivity.
Qed.

(** C1 as stated fails: the component is loading b.pdf when a result for
    a.pdf comes in, and the result is applied. *)
Lemma stale_result_applied :
  loadedUrlRef (viewer (load "b.pdf" mounted)) = Some "b.pdf"
  ∧ status (viewer (load "b.pdf" mounted)) = Loading
  ∧ numPages (viewer (load "b.pdf" mounted)) = 0
  ∧ status (viewer (deliver {| origin := "a.pdf"; outcome := Loaded 5 7 |}
                            (load "b.pdf" mounted))) = Ready
  ∧ numPages (viewer (deliver {| origin := "a.pdf"; outcome := Loaded 5 7 |}
                              (load "b.pdf" mounted))) = 5.
Proof. repeat split. Qed.

Lemma load_changed p h w url :
  reachable p h w → url ≠ fileUrl (props (viewer w)) →
  viewer (load url w)
  = {| props := Props.setFileUrl url (props (viewer w));
       numPages := numPages (viewer w);
       containerWidth := containerWidth (viewer w);
       isLoading := true;
       error := None;
       currentPage := currentPage (viewer w);
       pdfDocumentRef := pdfDocumentRef (viewer w);
       pageRefs := pageRefs (viewer w);
       loadedUrlRef := Some url;
       lastPageRef := lastPageRef (viewer w);
       handlePageVisibleTimeoutRef := handlePageVisibleTimeoutRef (viewer w);
       protectionCleanup := protectionCleanup (viewer w) |}
  ∧ host (load url w) = host w ∧ commits (load url w) = commits w.
Proof.
  intros Hr Hne. destruct (reachable_Inv _ _ _ Hr) as [_ [Hu _ _ _]].
  unfold urlInv in Hu. unfold load, rerender.
  assert (Hd : bool_decide (disableSecurity (props (viewer w))
                 = disableSecurity (Props.setFileUrl url (props (viewer w)))) = true)
    by (apply bool_decide_eq_true_2; reflexivity).
  assert (Hf : bool_decide (fileUrl (props (viewer w))
                 = fileUrl (Props.setFileUrl url (props (viewer w)))) = false)
    by (apply bool_decide_eq_false_2; cbn; congruence).
  rewrite Hd, Hf. unfold fileUrlEffect. cbn.
  rewrite bool_decide_eq_true_2 by (rewrite Hu; intros [=]; congruence).
  cbn. repeat split.
Qed.

(** C2 (as amended).  In every reachable state, setting another URL makes
    the session Loading at once, with the error cleared and the loading
    indicator shown; the page count, the page refs and the current page are
    those of the previous URL, and as many page slots as before are handed
    to the document. *)
Theorem url_change_resets_loading_only p h w url :
  reachable p h w → url ≠ fileUrl (props (viewer w)) →
  isLoading (viewer (load url w)) = true
  ∧ error (viewer (load url w)) = None
  ∧ status (viewer (load url w)) = Loading
  ∧ vLoadingIndicator (render (viewer (load url w))) = true
  ∧ loadedUrlRef (viewer (load url w)) = Some url
  ∧ numPages (viewer (load url w)) = numPages (viewer w)
  ∧ pageRefs (viewer (load url w)) = pageRefs (viewer w)
  ∧ currentPage (viewer (load url w)) = currentPage (viewer w)
  ∧ length (renderedPages (render (viewer (load url w)))) = numPages (viewer w).
Proof.
  intros Hr Hne. destruct (load_changed p h w url Hr Hne) as (-> & _ & _).
  repeat split. unfold renderedPages, render, pageSlots; cbn.
  now rewrite length_map, length_seq.
Qed.

Lemma url_change_resets_loading_only_witness :
  reachable (sampleProps "a.pdf") sampleHost (run mounted [LoadError "404"])
  ∧ "b.pdf" ≠ fileUrl (props (viewer (run mounted [LoadError "404"])))
  ∧ status (viewer (run mounted [LoadError "404"])) = Failed
  ∧ status (viewer (load "b.pdf" (run mounted [LoadError "404"]))) = Loading
  ∧ error (viewer (load "b.pdf" (run mounted [LoadError "404"]))) = None.
Proof.
  assert (Hr : reachable (sampleProps "a.pdf") sampleHost
                         (run mounted [LoadError "404"]))
    by (apply reachable_run, reach_mount, sampleHost_ok).
  assert (Hne : "b.pdf" ≠ fileUrl (props (viewer (run mounted [LoadError "404"]))))
    by discriminate.
  destruct (url_change_resets_loading_only _ _ _ _ Hr Hne) as (_ & He & Hs & _).
  split; [exact Hr|]. split; [exact Hne|]. split; [reflexivity|].
  split; [exact Hs | exact He].
Defined.

(** C2 as stated fails: the twelve pages of a.pdf are still counted, and
    their slots still handed to the document, while b.pdf is loading. *)
Lemma page_count_survives_url_change :
  status (viewer (load "b.pdf" (run mounted [LoadSuccess 12 7]))) = Loading
  ∧ numPages (viewer (load "b.pdf" (run mounted [LoadSuccess 12 7]))) = 12
  ∧ numPages (viewer (load "b.pdf" (run mounted [LoadSuccess 12 7])))
    ≠ numPages (initialState (sampleProps "b.pdf"))
  ∧ length (pageRefs (viewer (load "b.pdf" (run mounted [LoadSuccess 12 7])))) = 12
  ∧ vPageOf (render (viewer (load "b.pdf" (run mounted [LoadSuccess 12 7]))))
    = (1, 12)
  ∧ length (renderedPages
              (render (viewer (load "b.pdf" (run mounted [LoadSuccess 12 7])))))
    = 12.
Proof. repeat split. discriminate. Qed.

(** * Load failure *)

Lemma loadErrorMessage_truthy : truthyString loadErrorMessage = true.
Proof. reflexivity. Qed.

Lemma error_kept url evs : ∀ w,
  Forall (keepsUrl url) evs →
  fileUrl (props (viewer w)) = url →
  error (viewer w) = Some loadErrorMessage →
  error (viewer (run w evs)) = Some loadErrorMessage.
Proof.
  induction evs as [|e evs IH]; intros w Hk Hurl Herr; [exact Herr|].
  inversion Hk as [|? ? He Hrest]; subst.
  change (run w (e :: evs)) with (run (step w e) evs).
  assert (Hstep : fileUrl (props (viewer (step w e))) = fileUrl (props (viewer w))
                  ∧ error (viewer (step w e)) = Some loadErrorMessage).
  { destruct e as [d|p|n doc|raw|entries|index el|entries]; cbn [step].
    - rewrite elapse_viewer. now split.
    - cbn in He. rewrite props_rerender.
      split; [exact He|]. unfold rerender.
      set (w1 := withViewer (λ v, setProps v p) w).
      set (w2 := if bool_decide _ then w1 else protectionEffect (runProtectionCleanup w1)).
      assert (H2 : error (viewer w2) = error (viewer w)).
      { subst w2. case_bool_decide; [easy|].
        destruct (runProtectionCleanup_frame w1) as (_ & _ & _ & _ & _ & A2 & _).
        destruct (protectionEffect_frame (runProtectionCleanup w1))
          as (_ & _ & _ & _ & _ & B2 & _).
        now rewrite B2, A2. }
      rewrite bool_decide_eq_true_2 by congruence.
      now rewrite H2.
    - contradiction.
    - now split.
    - destruct entries; now split.
    - now split.
    - destruct (onIntersect_cases entries w) as [->|[page ->]]; [now split|].
      destruct (handlePageVisible_frame page w) as (-> & _ & _ & _ & -> & _).
      now split. }
  destruct Hstep as (Hu' & He').
  apply (IH (step w e) Hrest); [congruence | exact He'].
Qed.

(** C8.  In every reachable state, a load failure shows the error panel with
    the fixed message and nothing else in the body: no page slot, no loading
    indicator; the view is the same whatever the raw error is, which only
    goes to the console, and the handler returns the next state like any
    other.  Setting another URL then clears the error and shows the loading
    indicator over the document at once.  Until then nothing the component
    does brings the load back: setting the same URL changes nothing, and the
    error stays through any events that neither set another URL nor deliver a
    result. *)
Theorem load_failure_shows_fixed_message p h w raw :
  reachable p h w →
  vBody (render (viewer (onDocumentLoadError raw w))) = ErrorMessage loadErrorMessage
  ∧ renderedPages (render (viewer (onDocumentLoadError raw w))) = []
  ∧ vLoadingIndicator (render (viewer (onDocumentLoadError raw w))) = false
  ∧ status (viewer (onDocumentLoadError raw w)) = Failed
  ∧ (∀ raw', render (viewer (onDocumentLoadError raw' w))
             = render (viewer (onDocumentLoadError raw w)))
  ∧ Host.console (host (onDocumentLoadError raw w))
    = Host.console (host w) ++ ["PDF Load Error: " ++ raw]%string
  ∧ (∀ url, url ≠ fileUrl (props (viewer w)) →
       error (viewer (load url (onDocumentLoadError raw w))) = None
       ∧ vLoadingIndicator (render (viewer (load url (onDocumentLoadError raw w))))
         = true
       ∧ vBody (render (viewer (load url (onDocumentLoadError raw w))))
         = Document (pageSlots (viewer (load url (onDocumentLoadError raw w)))))
  ∧ load (fileUrl (props (viewer w))) (onDocumentLoadError raw w)
    = onDocumentLoadError raw w
  ∧ (∀ evs, Forall (keepsUrl (fileUrl (props (viewer w)))) evs →
       status (viewer (run (onDocumentLoadError raw w) evs)) = Failed
       ∧ renderedPages (render (viewer (run (onDocumentLoadError raw w) evs))) = []).
Proof.
  intros Hr.
  assert (Hr' : reachable p h (onDocumentLoadError raw w))
    by exact (reach_step p h w (LoadError raw) Hr).
  split; [reflexivity|]. split; [reflexivity|]. split; [reflexivity|].
  split; [reflexivity|]. split; [reflexivity|]. split; [reflexivity|].
  split; [|split].
  - intros url Hne.
    destruct (load_changed p h _ url Hr' Hne) as (Hv & _ & _).
    rewrite Hv. repeat split.
  - apply (load_same (onDocumentLoadError raw w)).
  - intros evs Hk.
    pose proof (error_kept _ evs (onDocumentLoadError raw w) Hk eq_refl eq_refl)
      as He.
    split.
    + apply (status_failed _ loadErrorMessage He loadErrorMessage_truthy).
    + unfold renderedPages, render; cbn. now rewrite He.
Qed.

Lemma load_failure_shows_fixed_message_witness :
  reachable (sampleProps "a.pdf") sampleHost (run mounted threePages)
  ∧ renderedPages (render (viewer (run mounted threePages))) ≠ []
  ∧ vBody (render (viewer (onDocumentLoadError "404" (run mounted threePages))))
    = ErrorMessage loadErrorMessage
  ∧ renderedPages
      (render (viewer (onDocumentLoadError "404" (run mounted threePages)))) = [].
Proof.
  assert (Hr : reachable (sampleProps "a.pdf") sampleHost (run mounted threePages))
    by (apply reachable_run, reach_mount, sampleHost_ok).
  destruct (load_failure_shows_fixed_message _ _ _ "404" Hr) as (Hb & Hp & _).
  split; [exact Hr|]. split; [discriminate|]. split; [exact Hb | exact Hp].
Defined.

(** * Page width *)

Lemma truthyQ_nonzero q : ¬ (q == 0)%Q → truthyQ q = true.
Proof.
  intros Hq. unfold truthyQ. destruct (Qeq_bool q 0) eqn:E; [|reflexivity].
  apply Qeq_bool_iff in E. contradiction.
Qed.

Lemma map_const_seq {A} (x : A) n s : map (λ _, x) (seq s n) = replicate n x.
Proof.
  revert s; induction n as [|n IH]; intros s; [reflexivity|].
  cbn. now rewrite IH.
Qed.

(** C9 (as amended).  When the container width is known and not zero, every
    page slot is rendered at the smaller of the container width and the
    maximum width, and the maximum is 900 when the option is absent. *)
Theorem page_width_is_min v cw :
  containerWidth v = Some cw → ¬ (cw == 0)%Q →
  map width (pageSlots v) = replicate (numPages v) (Qmin cw (maxWidth (props v)))
  ∧ (Props.maxWidth (props v) = None → maxWidth (props v) = 900%Q).
Proof.
  intros Hc Hq. split.
  - unfold pageSlots. rewrite map_map. unfold PageContent; cbn.
    rewrite Hc, (truthyQ_nonzero cw Hq). apply map_const_seq.
  - intros Hm. unfold maxWidth. now rewrite Hm.
Qed.

Lemma page_width_is_min_witness :
  containerWidth (viewer (run mounted (threePages ++ [Resize [800%Q]]))) = Some 800%Q
  ∧ containerWidth (viewer (run mounted (threePages ++ [Resize [800%Q]; Resize [400%Q]])))
    = Some 400%Q
  ∧ ¬ (400 == 0)%Q
  ∧ map width (pageSlots (viewer (run mounted
                 (threePages ++ [Resize [800%Q]; Resize [400%Q]]))))
    = [400%Q; 400%Q; 400%Q].
Proof.
  split; [reflexivity|]. split; [reflexivity|].
  assert (Hq : ¬ (400 == 0)%Q) by (intros H; vm_compute in H; discriminate).
  split; [exact Hq|].
  exact (proj1 (page_width_is_min
                  (viewer (run mounted (threePages ++ [Resize [800%Q]; Resize [400%Q]])))
                  400%Q eq_refl Hq)).
Defined.

(** C9 as stated fails: a container of width 0 is a known width, and the
    pages are rendered 900 wide, not 0. *)
Lemma zero_width_falls_back_to_max :
  containerWidth (viewer (run mounted (threePages ++ [Resize [0%Q]]))) = Some 0%Q
  ∧ map width (pageSlots (viewer (run mounted (threePages ++ [Resize [0%Q]]))))
    = [900%Q; 900%Q; 900%Q]
  ∧ Qmin 0 (maxWidth (props (viewer (run mounted (threePages ++ [Resize [0%Q]])))))
    = 0%Q
  ∧ ¬ (900 == 0)%Q.
Proof.
  split; [reflexivity|]. split; [reflexivity|]. split; [reflexivity|].
  intros H; vm_compute in H; discriminate.
Qed.

(** * Watermark *)

Lemma render_watermark_fixed v :
  Forall (λ pg, watermark pg = "KIITConnect") (renderedPages (render v)).
Proof.
  assert (Hs : Forall (λ pg, watermark pg = "KIITConnect") (pageSlots v)).
  { unfold pageSlots. apply Forall_forall. intros pg Hpg.
    apply in_map_iff in Hpg as (i & <- & _). reflexivity. }
  unfold renderedPages, render; cbn.
  destruct (error v) as [msg|]; [|exact Hs].
  destruct (truthyString msg); [constructor | exact Hs].
Qed.

(** C3.  What the code does where the claim fails: with the watermark text
    configured as "Confidential", the label of each of the three rendered
    pages reads "KIITConnect". *)
Theorem watermark_ignores_configured_text :
  watermarkText confidentialProps = "Confidential"
  ∧ map watermark
      (renderedPages
         (render (viewer (run (mount confidentialProps sampleHost) threePages))))
    = ["KIITConnect"; "KIITConnect"; "KIITConnect"].
Proof. split; reflexivity. Qed.

(** * Further properties of the component *)

(** ** The pending commit *)

Lemma rerender_now p w : Host.now (host (rerender p w)) = Host.now (host w).
Proof.
  unfold rerender.
  set (w1 := withViewer (λ v, setProps v p) w).
  assert (H1 : Host.now (host (protectionEffect (runProtectionCleanup w1)))
               = Host.now (host w)).
  { unfold protectionEffect.
    assert (Hc : Host.now (host (runProtectionCleanup w1)) = Host.now (host w)).
    { unfold runProtectionCleanup.
      destruct (protectionCleanup (viewer w1)); [|reflexivity].
      cbn. unfold protectionCleanupBody.
      now rewrite (proj1 (clearPendingCommit_frame _)). }
    destruct (disableSecurity _); cbn; exact Hc. }
  assert (Hf : ∀ w', Host.now (host (fileUrlEffect w')) = Host.now (host w')).
  { intros w'. now rewrite (proj1 (proj2 (fileUrlEffect_spec w'))). }
  repeat case_bool_decide; rewrite ?Hf; try exact H1; reflexivity.
Qed.

Lemma handlePageVisible_deadlineInv page w :
  deadlineInv w → deadlineInv (handlePageVisible page w).
Proof.
  intros Hd. unfold handlePageVisible.
  destruct (Nat.eqb (lastPageRef (viewer w)) page); [exact Hd|].
  destruct (clearPendingCommit_frame w) as (Hnow & _).
  unfold deadlineInv. cbn. rewrite Hnow. intros tm Htm.
  apply elem_of_app in Htm as [Htm|Htm].
  - apply Hd. now apply clearPendingCommit_sub.
  - apply list_elem_of_singleton in Htm. subst tm. cbn. lia.
Qed.

Lemma step_deadlineInv w e : deadlineInv w → deadlineInv (step w e).
Proof.
  intros Hd. destruct e as [d|p|n doc|raw|entries|index el|entries]; cbn [step].
  - unfold deadlineInv. rewrite elapse_host. cbn. intros tm Htm.
    apply list_elem_of_filter in Htm as [_ Htm]. specialize (Hd tm Htm). lia.
  - unfold deadlineInv. rewrite rerender_now. intros tm Htm.
    apply Hd. now apply (rerender_frame p w).
  - exact Hd.
  - exact Hd.
  - now destruct entries.
  - exact Hd.
  - destruct (onIntersect_cases entries w) as [->|[page ->]]; [exact Hd|].
    now apply handlePageVisible_deadlineInv.
Qed.

Lemma reachable_deadlineInv p h w : reachable p h w → deadlineInv w.
Proof.
  induction 1 as [Hok|w e _ IH].
  - destruct (mount_atDefaultPage p h Hok) as (_ & _ & Ht & _).
    intros tm Htm. rewrite Ht in Htm. inversion Htm.
  - now apply step_deadlineInv.
Qed.

(** X1.  In every reachable state at most one commit timer is pending; it is
    the timer whose handle the ref holds, it is for the page recorded last,
    and it is due after now and at most 300 from now. *)
Theorem pending_commit_unique p h w :
  reachable p h w →
  length (Host.timers (host w)) ≤ 1
  ∧ Forall (λ tm, handlePageVisibleTimeoutRef (viewer w) = Some (Host.timerId tm)
                  ∧ Host.timerPage tm = lastPageRef (viewer w)
                  ∧ Host.now (host w) < Host.deadline tm
                  ∧ Host.deadline tm ≤ Host.now (host w) + 300)
           (Host.timers (host w)).
Proof.
  intros Hr. destruct (reachable_Inv _ _ _ Hr) as [_ [_ _ _ (_ & _ & Hm)]].
  pose proof (reachable_deadlineInv _ _ _ Hr) as Hd. unfold deadlineInv in Hd.
  destruct (Host.timers (host w)) as [|tm [|tm' l]]; [| |contradiction].
  - split; [cbn; lia | constructor].
  - destruct Hm as (Href & _ & Hpage & Hnow).
    split; [cbn; lia|]. constructor; [|constructor].
    repeat split; try assumption. apply Hd. left.
Qed.

Lemma pending_commit_unique_witness :
  reachable (sampleProps "a.pdf") sampleHost
            (run mounted (scrollToTwo ++ [Elapse 100; Intersect [entryOf 12 0.9]]))
  ∧ map Host.timerPage
        (Host.timers (host (run mounted
           (scrollToTwo ++ [Elapse 100; Intersect [entryOf 12 0.9]])))) = [3]
  ∧ length (Host.timers (host (run mounted
              (scrollToTwo ++ [Elapse 100; Intersect [entryOf 12 0.9]])))) ≤ 1.
Proof.
  assert (Hr : reachable (sampleProps "a.pdf") sampleHost
                 (run mounted (scrollToTwo ++ [Elapse 100; Intersect [entryOf 12 0.9]])))
    by (apply reachable_run, reach_mount, sampleHost_ok).
  split; [exact Hr|]. split; [reflexivity|].
  exact (proj1 (pending_commit_unique _ _ _ Hr)).
Defined.

(** The queue of a reachable state: empty, or the one timer for the recorded
    page, due within 300. *)
Lemma pending_timer_shape p h w :
  reachable p h w →
  Host.timers (host w) = []
  ∨ ∃ id dl, Host.timers (host w)
             = [ {| Host.timerId := id; Host.deadline := dl;
                    Host.timerPage := lastPageRef (viewer w) |} ]
             ∧ dl ≤ Host.now (host w) + 300.
Proof.
  intros Hr. destruct (reachable_Inv _ _ _ Hr) as [_ [_ _ _ (_ & _ & Hm)]].
  pose proof (reachable_deadlineInv _ _ _ Hr) as Hd. unfold deadlineInv in Hd.
  destruct (Host.timers (host w)) as [|tm [|tm' l]]; [now left| |contradiction].
  right. destruct Hm as (_ & _ & Hpage & _).
  exists (Host.timerId tm), (Host.deadline tm). split.
  - destruct tm; cbn in *. now subst.
  - apply Hd. left.
Qed.

Lemma props_mount p h : props (viewer (mount p h)) = p.
Proof.
  unfold mount.
  rewrite (proj1 (proj2 (proj2 (proj2 (fileUrlEffect_spec _))))).
  now rewrite props_protectionEffect.
Qed.

Lemma rerender_keepsFlag p w :
  disableSecurity p = disableSecurity (props (viewer w)) →
  Host.timers (host (rerender p w)) = Host.timers (host w).
Proof.
  intros Hf. unfold rerender.
  rewrite (bool_decide_eq_true_2 (disableSecurity (props (viewer w)) = disableSecurity p))
    by congruence.
  case_bool_decide; [reflexivity|].
  now rewrite (proj1 (proj2 (fileUrlEffect_spec _))).
Qed.

Lemma props_step w e :
  props (viewer (step w e))
  = match e with Rerender p => p | _ => props (viewer w) end.
Proof.
  destruct e as [d|p|n doc|raw|entries|index el|entries]; cbn [step];
    try reflexivity.
  - now rewrite elapse_viewer.
  - apply props_rerender.
  - now destruct entries.
  - destruct (onIntersect_cases entries w) as [->|[page ->]]; [reflexivity|].
    apply handlePageVisible_frame.
Qed.

Lemma step_settled w e :
  timersInv w → keepsFlag (disableSecurity (props (viewer w))) e →
  settled w → settled (step w e).
Proof.
  intros Hinv Hk Hs.
  destruct e as [d|p|n doc|raw|entries|index el|entries]; cbn [step].
  - unfold settled. rewrite elapse_host, elapse_viewer. cbn.
    unfold laterTimers, dueTimers.
    destruct Hinv as (_ & _ & Hm).
    destruct (Host.timers (host w)) as [|tm [|tm' l]] eqn:Et; [| |contradiction].
    + intros _. cbn. now apply Hs.
    + destruct (decide (Host.deadline tm ≤ Host.now (host w) + d)) as [Hd|Hd].
      * intros _. rewrite filter_cons_True by exact Hd. cbn. apply Hm.
      * rewrite filter_cons_True by exact Hd. discriminate.
  - cbn in Hk. destruct (rerender_frame p w) as (Hc & Hl & _).
    unfold settled. rewrite Hc, Hl, (rerender_keepsFlag p w Hk). exact Hs.
  - exact Hs.
  - exact Hs.
  - now destruct entries.
  - exact Hs.
  - destruct (onIntersect_cases entries w) as [->|[page ->]]; [exact Hs|].
    destruct (Nat.eq_dec (lastPageRef (viewer w)) page) as [<-|Hne].
    + now rewrite handlePageVisible_skip.
    + destruct (handlePageVisible_accept page w Hinv Hne) as (Ht & _).
      unfold settled. rewrite Ht. discriminate.
Qed.

Lemma run_settled p h b evs : ∀ w,
  reachable p h w → disableSecurity (props (viewer w)) = b →
  Forall (keepsFlag b) evs → settled w →
  settled (run w evs).
Proof.
  induction evs as [|e evs IH]; intros w Hr Hb Hk Hs; [exact Hs|].
  inversion Hk as [|? ? He Hrest]; subst.
  change (run w (e :: evs)) with (run (step w e) evs).
  apply IH.
  - now constructor.
  - rewrite props_step. destruct e; try reflexivity. exact He.
  - exact Hrest.
  - apply step_settled; [|exact He|exact Hs].
    apply (inv_timers h), (reachable_Inv p h w Hr).
Qed.

(** X2.  As long as no render changes [disableSecurity], a recorded page is
    never lost: 300 after the last event of any run from mount no commit is
    pending and the page shown is the page recorded last. *)
Theorem recorded_page_is_committed p h evs d :
  Host.ok h → Forall (keepsFlag (disableSecurity p)) evs → 300 ≤ d →
  currentPage (viewer (elapse d (run (mount p h) evs)))
  = lastPageRef (viewer (run (mount p h) evs))
  ∧ Host.timers (host (elapse d (run (mount p h) evs))) = [].
Proof.
  intros Hok Hk Hd.
  assert (Hr0 : reachable p h (mount p h)) by now constructor.
  assert (Hr : reachable p h (run (mount p h) evs)) by now apply reachable_run.
  assert (Hs : settled (run (mount p h) evs)).
  { apply (run_settled p h (disableSecurity p)); try assumption.
    - now rewrite props_mount.
    - intros _. now destruct (mount_atDefaultPage p h Hok) as (-> & -> & _). }
  destruct (pending_timer_shape p h _ Hr) as [Ht|(id & dl & Ht & Hdl)].
  - rewrite (elapse_idle _ _ Ht). cbn. split; [now apply Hs | exact Ht].
  - destruct (elapse_commit d _ id dl _ Ht ltac:(lia)) as (_ & Hc & Hn).
    split; [exact Hc | exact Hn].
Qed.

Lemma recorded_page_is_committed_witness :
  Host.ok sampleHost
  ∧ Forall (keepsFlag (disableSecurity (sampleProps "a.pdf"))) scrollToTwo
  ∧ currentPage (viewer (run mounted scrollToTwo)) = 1
  ∧ currentPage (viewer (elapse 300 (run mounted scrollToTwo))) = 2.
Proof.
  assert (Hk : Forall (keepsFlag (disableSecurity (sampleProps "a.pdf"))) scrollToTwo)
    by (repeat constructor).
  split; [exact sampleHost_ok|]. split; [exact Hk|]. split; [reflexivity|].
  exact (proj1 (recorded_page_is_committed (sampleProps "a.pdf") sampleHost
                  scrollToTwo 300 sampleHost_ok Hk (Nat.le_refl 300))).
Defined.

(** X3.  Switching the overlay off while a commit is pending cancels the
    commit for good: the timer is gone, the page stays recorded but is never
    shown however much time passes, and reporting it again is skipped. *)
Theorem opt_out_drops_pending_commit p h w :
  reachable p h w → disableSecurity (props (viewer w)) = false →
  Host.timers
    (host (rerender (Props.setDisableSecurity (Some true) (props (viewer w))) w))
  = []
  ∧ lastPageRef
      (viewer (rerender (Props.setDisableSecurity (Some true) (props (viewer w))) w))
    = lastPageRef (viewer w)
  ∧ (∀ d, currentPage
            (viewer (elapse d
               (rerender (Props.setDisableSecurity (Some true) (props (viewer w))) w)))
          = currentPage (viewer w))
  ∧ handlePageVisible (lastPageRef (viewer w))
      (rerender (Props.setDisableSecurity (Some true) (props (viewer w))) w)
    = rerender (Props.setDisableSecurity (Some true) (props (viewer w))) w.
Proof.
  intros Hr Hd. set (p' := Props.setDisableSecurity (Some true) (props (viewer w))).
  destruct (reachable_Inv _ _ _ Hr) as [Hok HI].
  destruct (rerender_frame p' w) as (Hc & Hl & _).
  assert (Ht : Host.timers (host (rerender p' w)) = []).
  { (* the flag changes, so the cleanup runs during the render *)
    unfold rerender.
    rewrite (bool_decide_eq_false_2
               (disableSecurity (props (viewer w)) = disableSecurity p'))
      by (rewrite Hd; discriminate).
    rewrite (bool_decide_eq_true_2 (fileUrl (props (viewer w)) = fileUrl p'))
      by reflexivity.
    set (w1 := withViewer (λ v, setProps v p') w).
    destruct (protectionEffect_frame (runProtectionCleanup w1))
      as (_ & _ & _ & _ & _ & _ & _ & _ & -> & _).
    destruct (runProtectionCleanup_spec h w1 Hok)
      as (_ & _ & _ & _ & _ & _ & Htm1 & _).
    - eapply listenersInv_ext; [..|exact (inv_listeners _ _ HI)]; reflexivity.
    - eapply timersInv_ext; [..|exact (inv_timers _ _ HI)]; reflexivity.
    - rewrite Htm1. cbn. pose proof (inv_flag _ _ HI) as Hf0. unfold flagInv in Hf0.
      rewrite Hd in Hf0. now rewrite Hf0. }
  split; [exact Ht|]. split; [exact Hl|]. split.
  - intros d. rewrite (elapse_idle _ _ Ht). cbn. exact Hc.
  - rewrite <- Hl. apply handlePageVisible_skip.
Qed.

Lemma opt_out_drops_pending_commit_witness :
  reachable (sampleProps "a.pdf") sampleHost (run mounted scrollToTwo)
  ∧ disableSecurity (props (viewer (run mounted scrollToTwo))) = false
  ∧ lastPageRef (viewer (run mounted scrollToTwo)) = 2
  ∧ length (Host.timers (host (run mounted scrollToTwo))) = 1
  ∧ Host.timers (host (rerender unprotectedProps (run mounted scrollToTwo))) = []
  ∧ currentPage
      (viewer (elapse 1000 (rerender unprotectedProps (run mounted scrollToTwo))))
    = 1.
Proof.
  assert (Hr : reachable (sampleProps "a.pdf") sampleHost (run mounted scrollToTwo))
    by (apply reachable_run, reach_mount, sampleHost_ok).
  destruct (opt_out_drops_pending_commit _ _ _ Hr eq_refl) as (Ht & _ & Hc & _).
  split; [exact Hr|]. split; [reflexivity|]. split; [reflexivity|].
  split; [reflexivity|]. split; [exact Ht | exact (Hc 1000)].
Defined.

(** ** What the overlay cancels *)

Lemma installed_cancels k ev :
  Dom.defaultPrevented (installProtection k []) ev = overlayCancels ev.
Proof.
  rewrite installProtection_nil. cbv zeta.
  unfold Dom.defaultPrevented, overlayCancels, protectedTypes.
  cbn [existsb Dom.lType Dom.lCallback Dom.cbRun preventDefaultHandlerOf
       handleKeyDownOf].
  repeat match goal with
         | |- context [String.eqb ?s (Dom.evType ev)] =>
             destruct (String.eqb s (Dom.evType ev))
         end;
    cbn [andb orb]; try reflexivity; now destruct (handleKeyDown ev).
Qed.

(** X4.  While the overlay is enabled, an event dispatched at the document
    is cancelled exactly when the page cancelled it already or it is one of
    the eight protected types or a key press that [handleKeyDown] matches
    (Ctrl with p, s or c in lower case, PrintScreen, F12); events of any
    other type, and all other key presses, are left to the page.  With the
    overlay disabled every event is left to the page. *)
Theorem overlay_cancels_exactly p h w ev :
  reachable p h w →
  Dom.defaultPrevented (Host.listeners (host w)) ev
  = Dom.defaultPrevented (Host.listeners h) ev
    || (negb (disableSecurity (props (viewer w))) && overlayCancels ev).
Proof.
  intros Hr. destruct (reachable_Inv _ _ _ Hr) as [_ HI].
  destruct (disableSecurity (props (viewer w))) eqn:Hd; cbn [negb andb].
  - rewrite (Inv_disabled h w HI Hd). now rewrite orb_false_r.
  - destruct (Inv_enabled h w HI Hd) as (k & _ & ->).
    unfold Dom.defaultPrevented at 1. rewrite existsb_app.
    f_equal. apply (installed_cancels k ev).
Qed.

Lemma overlay_cancels_exactly_witness :
  reachable (sampleProps "a.pdf") sampleHost (run mounted threePages)
  ∧ Dom.defaultPrevented (Host.listeners (host (run mounted threePages))) ctrlP
    = true
  ∧ Dom.defaultPrevented (Host.listeners (host (run mounted threePages))) ctrlShiftP
    = false
  ∧ Dom.defaultPrevented (Host.listeners (host (run mounted threePages)))
      (eventOfType "click") = false.
Proof.
  assert (Hr : reachable (sampleProps "a.pdf") sampleHost (run mounted threePages))
    by (apply reachable_run, reach_mount, sampleHost_ok).
  split; [exact Hr|].
  rewrite !(overlay_cancels_exactly _ _ _ _ Hr).
  repeat split.
Defined.

(** ** Page slots *)

(** X5.  Whatever the container width is (unknown, zero, smaller or larger
    than the maximum), no page slot is rendered wider than the maximum
    width. *)
Theorem page_width_at_most_max v :
  Forall (λ pg, (width pg <= maxWidth (props v))%Q) (pageSlots v).
Proof.
  unfold pageSlots. apply Forall_forall. intros pg Hpg.
  apply in_map_iff in Hpg as (i & <- & _). unfold PageContent; cbn.
  destruct (containerWidth v) as [cw|]; [|apply Qle_refl].
  destruct (truthyQ cw); [apply Q.le_min_r | apply Qle_refl].
Qed.

Lemma map_succ_seq s n : map (λ index, index + 1) (seq s n) = seq (S s) n.
Proof.
  revert s; induction n as [|n IH]; intros s; [reflexivity|].
  cbn. rewrite IH. f_equal. lia.
Qed.

Lemma findIndex_replicate_None n tg : findIndex (replicate n None) tg = None.
Proof.
  destruct (findIndex (replicate n None) tg) as [i|] eqn:E; [|reflexivity].
  apply findIndex_Some in E as [Hl _].
  apply lookup_replicate in Hl as [Hl _]. discriminate.
Qed.

Lemma mostVisible_unattached refs entries :
  (∀ tg, findIndex refs tg = None) →
  snd (mostVisible refs entries) = None.
Proof.
  intros Hnone. unfold mostVisible.
  induction entries as [|x l IH] using rev_ind; [reflexivity|].
  rewrite foldl_app. cbn [foldl].
  destruct (foldl (scanEntry refs) (0%Q, None) l) as [mv vp]. cbn in IH. subst vp.
  unfold scanEntry. destruct (_ && _); [|reflexivity].
  now rewrite Hnone.
Qed.

(** X6.  A successful load, in whatever state it arrives (loading, ready or
    failed), makes the session Ready with the reported page count: the
    document gets exactly that many slots, numbered 1, 2, ... in order, and
    [pageRefs] is a fresh array of that many nulls, whose surfaces are
    unknown to the observer callback until refs are attached: any batch
    before that changes nothing.  The current page is not reset. *)
Theorem load_success_allocates_slots w n doc entries :
  status (viewer (onDocumentLoadSuccess n doc w)) = Ready
  ∧ map pageNumber (renderedPages (render (viewer (onDocumentLoadSuccess n doc w))))
    = seq 1 n
  ∧ pageRefs (viewer (onDocumentLoadSuccess n doc w)) = replicate n None
  ∧ vPageOf (render (viewer (onDocumentLoadSuccess n doc w)))
    = (currentPage (viewer w), n)
  ∧ observerCallback entries (onDocumentLoadSuccess n doc w)
    = onDocumentLoadSuccess n doc w.
Proof.
  split; [reflexivity|]. split; [|split; [reflexivity|split; [reflexivity|]]].
  - unfold renderedPages, render, pageSlots; cbn.
    rewrite map_map. cbn. apply map_succ_seq.
  - unfold observerCallback.
    pose proof (mostVisible_unattached
                  (pageRefs (viewer (onDocumentLoadSuccess n doc w))) entries
                  (findIndex_replicate_None n)) as Hm.
    destruct (mostVisible _ _) as [mv vp]. cbn in Hm. now subst vp.
Qed.

(** ** Load state *)

Lemma rerender_load_state p w :
  (isLoading (viewer (rerender p w)) = true ∧ error (viewer (rerender p w)) = None)
  ∨ (isLoading (viewer (rerender p w)) = isLoading (viewer w)
     ∧ error (viewer (rerender p w)) = error (viewer w)).
Proof.
  unfold rerender.
  set (w1 := withViewer (λ v, setProps v p) w).
  set (w2 := if bool_decide _ then w1 else protectionEffect (runProtectionCleanup w1)).
  assert (H2 : isLoading (viewer w2) = isLoading (viewer w)
               ∧ error (viewer w2) = error (viewer w)).
  { subst w2. case_bool_decide; [easy|].
    destruct (runProtectionCleanup_frame w1) as (_ & _ & _ & _ & A1 & A2 & _).
    destruct (protectionEffect_frame (runProtectionCleanup w1))
      as (_ & _ & _ & _ & B1 & B2 & _).
    now rewrite B1, B2, A1, A2. }
  case_bool_decide; [now right|].
  unfold fileUrlEffect. case_bool_decide; [left; now split | now right].
Qed.

Lemma step_loadStateInv w e :
  loadStateInv (viewer w) → loadStateInv (viewer (step w e)).
Proof.
  intros [He Hl]. unfold loadStateInv.
  destruct e as [d|p|n doc|raw|entries|index el|entries]; cbn [step].
  - rewrite elapse_viewer. now split.
  - destruct (rerender_load_state p w) as [[-> ->]|[-> ->]]; [|now split].
    split; [now left | reflexivity].
  - cbn. split; [now left | reflexivity].
  - cbn. split; [now right | discriminate].
  - destruct entries; now split.
  - now split.
  - destruct (onIntersect_cases entries w) as [->|[page ->]]; [now split|].
    destruct (handlePageVisible_frame page w) as (_ & _ & _ & -> & -> & _).
    now split.
Qed.

(** X7.  In every reachable state the error is either absent or the fixed
    message, and it is never present while the loading flag is set.  So the
    loading indicator is shown exactly when the flag is set, and the body is
    either the error panel with the fixed message or the document with its
    slots. *)
Theorem load_state_consistent p h w :
  reachable p h w →
  loadStateInv (viewer w)
  ∧ vLoadingIndicator (render (viewer w)) = isLoading (viewer w)
  ∧ (status (viewer w) = Failed
     ∧ vBody (render (viewer w)) = ErrorMessage loadErrorMessage
     ∨ status (viewer w) ≠ Failed
       ∧ vBody (render (viewer w)) = Document (pageSlots (viewer w))).
Proof.
  intros Hr.
  assert (HI : loadStateInv (viewer w)).
  { induction Hr as [Hok|w e _ IH]; [|now apply step_loadStateInv].
    unfold mount. set (w1 := protectionEffect _).
    assert (H1 : isLoading (viewer w1) = true ∧ error (viewer w1) = None).
    { subst w1. destruct (protectionEffect_frame
                            {| viewer := initialState p; host := h; commits := [] |})
        as (_ & _ & _ & _ & -> & -> & _). now split. }
    unfold fileUrlEffect. case_bool_decide; cbn.
    - split; [now left | reflexivity].
    - destruct H1 as [H1 H2]. split; [now left | now intros _]. }
  split; [exact HI|]. destruct HI as [[He|He] Hl].
  - unfold render, status, errorShown; cbn. rewrite He. cbn.
    split; [apply andb_true_r|]. right. split; [|reflexivity].
    destruct (isLoading (viewer w)); discriminate.
  - unfold render, status, errorShown; cbn. rewrite He. cbn.
    split.
    + destruct (isLoading (viewer w)) eqn:El; [|reflexivity].
      rewrite (Hl eq_refl) in He. discriminate.
    + left. now split.
Qed.

Lemma load_state_consistent_witness :
  reachable (sampleProps "a.pdf") sampleHost
            (run mounted [LoadError "404"; Rerender (sampleProps "b.pdf")])
  ∧ loadStateInv (viewer (run mounted [LoadError "404"; Rerender (sampleProps "b.pdf")]))
  ∧ vLoadingIndicator
      (render (viewer (run mounted [LoadError "404"; Rerender (sampleProps "b.pdf")])))
    = true.
Proof.
  assert (Hr : reachable (sampleProps "a.pdf") sampleHost
                 (run mounted [LoadError "404"; Rerender (sampleProps "b.pdf")]))
    by (apply reachable_run, reach_mount, sampleHost_ok).
  destruct (load_state_consistent _ _ _ Hr) as (HI & Hv & _).
  split; [exact Hr|]. split; [exact HI|]. rewrite Hv. reflexivity.
Defined.

(** ** Styles *)

Lemma orElse_nonempty a d : d ≠ "" → orElse a d ≠ "".
Proof.
  intros Hd. unfold orElse. destruct a as [s|]; [|exact Hd].
  unfold truthyString. destruct (String.eqb_spec s ""); cbn; assumption.
Qed.

Lemma orElse_override s d : s ≠ "" → orElse (Some s) d = s.
Proof.
  intros Hs. unfold orElse, truthyString.
  destruct (String.eqb_spec s ""); [contradiction | reflexivity].
Qed.

(** X8.  No style slot is ever the empty string: an override that is absent
    or empty gives way to the default colour, and a non-empty override of the
    background is used as it is. *)
Theorem styles_never_empty p :
  sBackgroundColor (styles p) ≠ "" ∧ sHeaderBgColor (styles p) ≠ ""
  ∧ sHeaderBorderColor (styles p) ≠ "" ∧ sTextColor (styles p) ≠ ""
  ∧ sAccentColor (styles p) ≠ "" ∧ sPageBackgroundColor (styles p) ≠ ""
  ∧ (Props.backgroundColor (customStyles p) = Some ""
     → sBackgroundColor (styles p) = "#121212")
  ∧ (∀ s, s ≠ "" → Props.backgroundColor (customStyles p) = Some s
          → sBackgroundColor (styles p) = s).
Proof.
  unfold styles; cbn.
  repeat (split; [apply orElse_nonempty; discriminate|]).
  split.
  - intros ->. reflexivity.
  - intros s Hs ->. now apply orElse_override.
Qed.

Lemma styles_never_empty_witness :
  Props.backgroundColor (customStyles overrideProps) = Some ""
  ∧ sBackgroundColor (styles overrideProps) = "#121212"
  ∧ sTextColor (styles overrideProps) = "#eee".
Proof.
  split; [reflexivity|].
  split; [|reflexivity].
  exact (proj1 (proj2 (proj2 (proj2 (proj2 (proj2 (proj2
           (styles_never_empty overrideProps))))))) eq_refl).
Defined.

(** ** Page refs *)

Lemma arraySet_lookup index el a : arraySet index el a !! index = Some el.
Proof.
  unfold arraySet. destruct (Nat.ltb_spec index (length a)) as [Hlt|Hge].
  - now apply list_lookup_insert_eq.
  - rewrite lookup_app_r by exact Hge.
    rewrite lookup_app_r by (rewrite length_replicate; lia).
    rewrite length_replicate. now rewrite Nat.sub_diag.
Qed.


Lemma arraySet_other index el a j :
  j ≠ index →
  arraySet index el a !! j
  = if Nat.ltb j (length a) then a !! j
    else if Nat.ltb j index then Some None else None.
Proof.
  intros Hne. unfold arraySet.
  destruct (Nat.ltb_spec index (length a)) as [Hlt|Hge].
  - rewrite list_lookup_insert_ne by congruence.
    destruct (Nat.ltb_spec j (length a)) as [Hj|Hj]; [reflexivity|].
    rewrite lookup_ge_None_2 by exact Hj.
    destruct (Nat.ltb_spec j index); [lia | reflexivity].
  - destruct (Nat.ltb_spec j (length a)) as [Hj|Hj].
    + now rewrite lookup_app_l by exact Hj.
    + rewrite lookup_app_r by exact Hj.
      destruct (Nat.ltb_spec j index) as [Hji|Hji].
      * rewrite lookup_app_l by (rewrite length_replicate; lia).
        apply lookup_replicate. split; [reflexivity | lia].
      * apply lookup_ge_None_2. rewrite length_app, length_replicate. cbn. lia.
Qed.


(** X10.  Once the ref of slot [index] holds an element that no earlier slot
    holds, the observer callback maps that element to page [index + 1]: a
    batch with this one intersecting entry, more than 0.3 visible, reports
    exactly that page to the debouncer. *)
Theorem attached_surface_is_page w index el ratio :
  (∀ j, j < index → pageRefs (viewer w) !! j ≠ Some (Some el)) →
  (0.3 < ratio)%Q →
  findIndex (pageRefs (viewer (attachRef index (Some el) w))) el = Some index
  ∧ observerCallback [entryOf el ratio] (attachRef index (Some el) w)
    = handlePageVisible (index + 1) (attachRef index (Some el) w).
Proof.
  intros Hfree Hr.
  assert (Hf : findIndex (pageRefs (viewer (attachRef index (Some el) w))) el
               = Some index).
  { apply findIndex_Some. cbn. split; [apply arraySet_lookup|].
    intros j Hj. rewrite arraySet_other by lia.
    destruct (Nat.ltb j (length (pageRefs (viewer w)))); [now apply Hfree|].
    destruct (Nat.ltb j index); discriminate. }
  split; [exact Hf|].
  unfold observerCallback, mostVisible. cbn [foldl scanEntry entryOf
    isIntersecting intersectionRatio target andb].
  assert (Hpos : Qgtb ratio 0 = true).
  { apply Qgtb_true. eapply Qlt_trans; [|exact Hr]. reflexivity. }
  rewrite Hpos, Hf.
  assert (Ht : truthyNat (index + 1) = true)
    by (unfold truthyNat; destruct (Nat.eqb_spec (index + 1) 0); [lia | reflexivity]).
  rewrite Ht. apply Qgtb_true in Hr. now rewrite Hr.
Qed.

Lemma attached_surface_is_page_witness :
  findIndex (pageRefs (viewer (attachRef 1 (Some 11)
                                 (run mounted [LoadSuccess 3 7])))) 11 = Some 1
  ∧ lastPageRef (viewer (observerCallback [entryOf 11 0.5]
                           (attachRef 1 (Some 11) (run mounted [LoadSuccess 3 7]))))
    = 2.
Proof.
  assert (Hfree : ∀ j, j < 1 →
            pageRefs (viewer (run mounted [LoadSuccess 3 7])) !! j ≠ Some (Some 11)).
  { intros j Hj. assert (j = 0) as -> by lia. discriminate. }
  assert (Hr : (0.3 < 0.5)%Q) by reflexivity.
  destruct (attached_surface_is_page (run mounted [LoadSuccess 3 7]) 1 11 0.5 Hfree Hr)
    as [Hf Ho].
  split; [exact Hf|]. rewrite Ho. reflexivity.
Defined.

(** ** What the observer callback can report *)

Lemma mostVisible_in_range refs entries page :
  snd (mostVisible refs entries) = Some page →
  1 ≤ page ≤ length refs
  ∧ ∃ e, e ∈ entries ∧ isIntersecting e = true
         ∧ refs !! (page - 1) = Some (Some (target e)).
Proof.
  unfold mostVisible. revert page.
  induction entries as [|x l IH] using rev_ind; intros page; [discriminate|].
  rewrite foldl_app. cbn [foldl].
  destruct (foldl (scanEntry refs) (0%Q, None) l) as [mv vp]. cbn [snd] in IH.
  assert (Hold : vp = Some page →
            1 ≤ page ≤ length refs
            ∧ ∃ e, e ∈ l ++ [x] ∧ isIntersecting e = true
                   ∧ refs !! (page - 1) = Some (Some (target e))).
  { intros Hvp. destruct (IH page Hvp) as (Hb & e & He & Hi & Hl).
    split; [exact Hb|]. exists e. split; [apply elem_of_app; now left | now split]. }
  unfold scanEntry. destruct (isIntersecting x) eqn:Ex; cbn [andb]; [|exact Hold].
  destruct (Qgtb _ _); [|exact Hold]. cbn [snd].
  destruct (findIndex refs (target x)) as [i|] eqn:Ef; [|exact Hold].
  intros [= <-]. apply findIndex_Some in Ef as [Hl _].
  pose proof (lookup_lt_Some _ _ _ Hl) as Hlt.
  split; [lia|]. exists x. split; [apply elem_of_app; right; left|].
  split; [exact Ex|]. now replace (i + 1 - 1) with i by lia.
Qed.

(** X11.  Whatever the batch holds, the observer callback either changes
    nothing or hands [handlePageVisible] a page between 1 and the length of
    [pageRefs] whose surface is the target of an intersecting entry of the
    batch: it never reports page 0, a page beyond the refs, or a page absent
    from the batch. *)
Theorem reported_page_in_range entries w :
  observerCallback entries w = w
  ∨ ∃ page e,
      1 ≤ page ≤ length (pageRefs (viewer w))
      ∧ e ∈ entries ∧ isIntersecting e = true
      ∧ pageRefs (viewer w) !! (page - 1) = Some (Some (target e))
      ∧ observerCallback entries w = handlePageVisible page w.
Proof.
  unfold observerCallback.
  pose proof (mostVisible_in_range (pageRefs (viewer w)) entries) as Hm.
  destruct (mostVisible _ _) as [mv [page|]]; [|now left]. cbn [snd] in Hm.
  destruct (_ && _); [|now left].
  destruct (Hm page eq_refl) as (Hb & e & He & Hi & Hl).
  right. exists page, e. repeat split; try assumption; apply Hb.
Qed.

(** ** What changes the page shown *)

Lemma step_currentPage w e :
  notElapse e →
  currentPage (viewer (step w e)) = currentPage (viewer w)
  ∧ commits (step w e) = commits w.
Proof.
  intros Hne. destruct e as [d|p|n doc|raw|entries|index el|entries]; cbn [step].
  - contradiction.
  - destruct (rerender_frame p w) as (Hc & _ & _ & _ & _ & _ & Hm). now split.
  - now split.
  - now split.
  - now destruct entries.
  - now split.
  - destruct (onIntersect_cases entries w) as [->|[page ->]]; [now split|].
    destruct (handlePageVisible_frame page w)
      as (_ & _ & _ & _ & _ & Hc & _ & _ & _ & _ & _ & _ & Hm). now split.
Qed.

(** X12.  Only an expiring timer changes the page shown.  Through any run
    without passage of time (new props, new URL, load results, resizes, ref
    attachments, intersection batches) the current page and the trace of
    commits stay as they are; in particular loading another document does not
    bring the current page back to 1. *)
Theorem current_page_moves_only_with_time w evs :
  Forall notElapse evs →
  currentPage (viewer (run w evs)) = currentPage (viewer w)
  ∧ commits (run w evs) = commits w.
Proof.
  revert w. induction evs as [|e evs IH]; intros w Hne; [now split|].
  inversion Hne as [|? ? He Hrest]; subst.
  change (run w (e :: evs)) with (run (step w e) evs).
  destruct (IH (step w e) Hrest) as [-> ->]. now apply step_currentPage.
Qed.

Lemma current_page_moves_only_with_time_witness :
  Forall notElapse [Rerender (sampleProps "b.pdf"); LoadSuccess 1 8]
  ∧ currentPage (viewer (run (run mounted (scrollToTwo ++ [Elapse 300]))
                             [Rerender (sampleProps "b.pdf"); LoadSuccess 1 8]))
    = 2
  ∧ vPageOf (render (viewer (run mounted shorterDocument))) = (2, 1).
Proof.
  assert (Hne : Forall notElapse [Rerender (sampleProps "b.pdf"); LoadSuccess 1 8])
    by (repeat constructor).
  split; [exact Hne|]. split; [|reflexivity].
  rewrite (proj1 (current_page_moves_only_with_time
                    (run mounted (scrollToTwo ++ [Elapse 300]))
                    [Rerender (sampleProps "b.pdf"); LoadSuccess 1 8] Hne)).
  reflexivity.
Defined.

(** ** The console *)

Lemma rerender_console p w :
  Host.console (host (rerender p w)) = Host.console (host w).
Proof.
  unfold rerender.
  set (w1 := withViewer (λ v, setProps v p) w).
  assert (H1 : Host.console (host (protectionEffect (runProtectionCleanup w1)))
               = Host.console (host w)).
  { assert (Hc : Host.console (host (runProtectionCleanup w1))
                 = Host.console (host w)).
    { unfold runProtectionCleanup.
      destruct (protectionCleanup (viewer w1)); [|reflexivity].
      cbn. unfold protectionCleanupBody.
      now rewrite (proj2 (proj2 (proj2 (proj2 (clearPendingCommit_frame _))))). }
    unfold protectionEffect. destruct (disableSecurity _); cbn; exact Hc. }
  assert (Hf : ∀ w', Host.console (host (fileUrlEffect w')) = Host.console (host w')).
  { intros w'. now rewrite (proj1 (proj2 (fileUrlEffect_spec w'))). }
  repeat case_bool_decide; rewrite ?Hf; try exact H1; reflexivity.
Qed.

Lemma step_console w e :
  Host.console (host (step w e))
  = Host.console (host w)
    ++ match e with
       | LoadError raw => ["PDF Load Error: " ++ raw]%string
       | _ => []
       end.
Proof.
  destruct e as [d|p|n doc|raw|entries|index el|entries]; cbn [step];
    rewrite ?app_nil_r.
  - now rewrite elapse_host.
  - apply rerender_console.
  - reflexivity.
  - reflexivity.
  - now destruct entries.
  - reflexivity.
  - destruct (onIntersect_cases entries w) as [->|[page ->]]; [reflexivity|].
    apply handlePageVisible_frame.
Qed.

(** X13.  The component writes to the console when a load fails and at no
    other time: after any run the console holds what it held before, followed
    by one "PDF Load Error" line per failed load, in order, each with its raw
    error. *)
Theorem console_logs_load_errors_only w evs :
  Host.console (host (run w evs))
  = Host.console (host w)
    ++ map (λ raw, "PDF Load Error: " ++ raw)%string (loadErrorsOf evs).
Proof.
  revert w. induction evs as [|e evs IH]; intros w; [now rewrite app_nil_r|].
  change (run w (e :: evs)) with (run (step w e) evs).
  rewrite IH, step_console, <- app_assoc. f_equal.
  destruct e; reflexivity.
Qed.

(** ** Repeated reports and repeated loads *)

(** X14.  A page that is reported again, however much later, while it is
    still the page recorded last, is skipped: the second report changes
    nothing, so it neither restarts the timer of a pending commit nor
    schedules a new commit once the first one has been made. *)
Theorem repeated_report_is_skipped w page d :
  handlePageVisible page (elapse d (handlePageVisible page w))
  = elapse d (handlePageVisible page w).
Proof.
  assert (Hl : lastPageRef (viewer (elapse d (handlePageVisible page w))) = page).
  { rewrite elapse_viewer. cbn [lastPageRef setCurrentPage].
    unfold handlePageVisible.
    destruct (Nat.eqb_spec (lastPageRef (viewer w)) page) as [E|_]; [exact E|].
    reflexivity. }
  rewrite <- Hl at 1. apply handlePageVisible_skip.
Qed.

Lemma load_reachable p h w url : reachable p h w → reachable p h (load url w).
Proof.
  intros Hr.
  exact (reach_step p h w (Rerender (Props.setFileUrl url (props (viewer w)))) Hr).
Qed.

Lemma load_fileUrl url w : fileUrl (props (viewer (load url w))) = url.
Proof. unfold load. now rewrite props_rerender. Qed.

(** X15.  After any sequence of [load] calls from a reachable state the URL
    the component has recorded is the URL of the last call (the URL it had,
    if there was no call), and it is the URL of its props. *)
Theorem recorded_url_is_last_load p h w urls :
  reachable p h w →
  loadedUrlRef (viewer (loadAll urls w))
  = Some (List.last urls (fileUrl (props (viewer w))))
  ∧ fileUrl (props (viewer (loadAll urls w)))
    = List.last urls (fileUrl (props (viewer w))).
Proof.
  revert w. induction urls as [|url urls IH]; intros w Hr.
  - split; [|reflexivity]. apply (inv_url h), (reachable_Inv p h w Hr).
  - change (loadAll (url :: urls) w) with (loadAll urls (load url w)).
    destruct (IH (load url w) (load_reachable p h w url Hr)) as [H1 H2].
    rewrite H1, H2, load_fileUrl.
    destruct urls as [|url' urls']; [now split|].
    now rewrite (last_cons_default url' urls' url (fileUrl (props (viewer w)))).
Qed.

Lemma recorded_url_is_last_load_witness :
  reachable (sampleProps "a.pdf") sampleHost (run mounted [LoadSuccess 3 7])
  ∧ loadedUrlRef (viewer (loadAll ["b.pdf"; "a.pdf"; "c.pdf"; "c.pdf"]
                            (run mounted [LoadSuccess 3 7])))
    = Some "c.pdf".
Proof.
  assert (Hr : reachable (sampleProps "a.pdf") sampleHost
                         (run mounted [LoadSuccess 3 7]))
    by (apply reachable_run, reach_mount, sampleHost_ok).
  split; [exact Hr|].
  exact (proj1 (recorded_url_is_last_load _ _ _
                  ["b.pdf"; "a.pdf"; "c.pdf"; "c.pdf"] Hr)).
Defined.
